(** * dev-workspace-setup: the task script, the test templates and the
      test-session hook, embedded and verified.

    Source files:
    - [src/tests/templates.py]: [function_under_test], [ClassUnderTest],
      the [AbstractRepository] protocol and its implementations;
    - [src/tests/conftest.py]: [pytest_sessionstart];
    - [src/tasks.py]: [update_vscode], [_read_secrets]. *)

From Stdlib Require Import ZArith Lia Ascii.
From stdpp Require Import gmap strings list countable sorting pretty.

Local Open Scope Z_scope.
#[local] Set Warnings "-clear-no-such-hyp".

(** ** Python values *)

(** The objects that flow through the modelled functions: integers,
    booleans (a subclass of [int]), strings, [None], and lists, the
    representative of the values that cannot be hashed. A string is a
    sequence of characters with code points below 256, one [ascii] a
    character. *)
#[warnings="-register-all"]
Inductive value : Type :=
  | PyInt (z : Z)
  | PyBool (b : bool)
  | PyStr (s : string)
  | PyNone
  | PyList (items : list value).

(** Induction that reaches the items of a list value. *)
Lemma value_ind' (P : value → Prop) :
  (∀ z, P (PyInt z)) →
  (∀ b, P (PyBool b)) →
  (∀ s, P (PyStr s)) →
  P PyNone →
  (∀ items, Forall P items → P (PyList items)) →
  ∀ v, P v.
Proof.
  intros Hi Hb Hs Hn Hl.
  fix IH 1. intros [z|b|s| |items].
  - apply Hi.
  - apply Hb.
  - apply Hs.
  - apply Hn.
  - apply Hl. induction items as [|x xs IHxs].
    + constructor.
    + constructor; [apply IH | apply IHxs].
Qed.

Fixpoint value_to_tree (v : value) : gen_tree (Z + bool + string + unit) :=
  match v with
  | PyInt z => GenLeaf (inl (inl (inl z)))
  | PyBool b => GenLeaf (inl (inl (inr b)))
  | PyStr s => GenLeaf (inl (inr s))
  | PyNone => GenLeaf (inr ())
  | PyList items => GenNode 0 (map value_to_tree items)
  end.

Fixpoint tree_to_value (t : gen_tree (Z + bool + string + unit)) : value :=
  match t with
  | GenLeaf (inl (inl (inl z))) => PyInt z
  | GenLeaf (inl (inl (inr b))) => PyBool b
  | GenLeaf (inl (inr s)) => PyStr s
  | GenLeaf (inr _) => PyNone
  | GenNode _ ts => PyList (map tree_to_value ts)
  end.

Lemma tree_to_value_to_tree (v : value) : tree_to_value (value_to_tree v) = v.
Proof.
  induction v as [z|b|s| |items IH] using value_ind'; simpl; try reflexivity.
  f_equal. induction IH as [|x xs Hx _ IHxs]; simpl; [reflexivity|].
  by rewrite Hx, IHxs.
Qed.

#[global] Instance value_to_tree_inj : Inj (=) (=) value_to_tree.
Proof.
  intros x y Hxy.
  rewrite <- (tree_to_value_to_tree x), <- (tree_to_value_to_tree y).
  by rewrite Hxy.
Qed.

#[global] Instance value_eq_dec : EqDecision value.
Proof.
  intros x y. destruct (decide (value_to_tree x = value_to_tree y)) as [H|H].
  - left. by apply (inj value_to_tree).
  - right. intros ->. by apply H.
Defined.

#[global] Instance value_countable : Countable value :=
  inj_countable' value_to_tree tree_to_value tree_to_value_to_tree.

(** ** Exceptions and results *)

(** The text of an exception. The message of the validation error is a
    fixed sentence followed by the printed set of offending values; a
    Python set prints its members in an order that depends on their
    hashes, so that message is kept as the set itself: [NonNumbers]
    says which values the text names, not in which order it prints
    them, and two such messages that are equal here may print their
    values in different orders. [InvalidLiteral] is the message of [int]
    on a string that is not a number, [ExceedsDigitLimit] the message of
    [int] and [str] on a number of more digits than the interpreter
    converts. *)
Inductive message : Type :=
  | Text (s : string)
  | NonNumbers (offending : gset value)
  | InvalidLiteral (literal : string)
  | ExceedsDigitLimit (digits : nat).

Inductive exn : Type :=
  | TypeError (msg : message)
  | ValueError (msg : message)
  | KeyError (key : string).

Inductive result (A : Type) : Type :=
  | Ok (a : A)
  | Raise (e : exn).
Arguments Ok {A} a.
Arguments Raise {A} e.

Definition bind_result {A B : Type} (r : result A) (k : A → result B) : result B :=
  match r with
  | Ok a => k a
  | Raise e => Raise e
  end.

Notation "'let*' x ':=' r 'in' k" := (bind_result r (λ x, k))
  (at level 10, x name, r at level 100, k at level 200, only parsing).

(** ** Built-ins used by the templates *)

(** [isinstance(v, int)]: true of integers and of booleans. *)
Definition isinstance_int (v : value) : bool :=
  match v with
  | PyInt _ | PyBool _ => true
  | _ => false
  end.

(** The number an [int] instance stands for in arithmetic and
    comparisons: [True] is 1 and [False] is 0. *)
Definition int_value (v : value) : option Z :=
  match v with
  | PyInt z => Some z
  | PyBool b => Some (if b then 1 else 0)
  | _ => None
  end.

Definition type_name (v : value) : string :=
  match v with
  | PyInt _ => "int"
  | PyBool _ => "bool"
  | PyStr _ => "str"
  | PyNone => "NoneType"
  | PyList _ => "list"
  end.

(** [hash(v)] succeeds on every value but a list. *)
Definition hashable (v : value) : bool :=
  match v with
  | PyList _ => false
  | _ => true
  end.

Definition unhashable_type (v : value) : exn :=
  TypeError (Text ("unhashable type: '" +:+ type_name v +:+ "'")).

(** [a == b]. *)
Fixpoint py_eq (a b : value) : bool :=
  match a, b with
  | PyList xs, PyList ys =>
      (fix items_eq (xs ys : list value) : bool :=
         match xs, ys with
         | [], [] => true
         | x :: xs', y :: ys' => py_eq x y && items_eq xs' ys'
         | _, _ => false
         end) xs ys
  | PyStr s, PyStr t => bool_decide (s = t)
  | PyNone, PyNone => true
  | _, _ =>
      match int_value a, int_value b with
      | Some x, Some y => x =? y
      | _, _ => false
      end
  end.

Definition not_supported (a b : value) : exn :=
  TypeError (Text ("'>' not supported between instances of '" +:+ type_name a
                   +:+ "' and '" +:+ type_name b +:+ "'")).

(** [a > b]: numbers by value, strings and lists lexicographically, a
    [TypeError] for operands that have no order. *)
Fixpoint py_gt (a b : value) : result bool :=
  match a, b with
  | PyList xs, PyList ys =>
      (fix items_gt (xs ys : list value) : result bool :=
         match xs, ys with
         | x :: xs', y :: ys' => if py_eq x y then items_gt xs' ys' else py_gt x y
         | _ :: _, [] => Ok true
         | [], _ => Ok false
         end) xs ys
  | PyStr s, PyStr t => Ok (String.ltb t s)
  | _, _ =>
      match int_value a, int_value b with
      | Some x, Some y => Ok (y <? x)
      | _, _ => Raise (not_supported a b)
      end
  end.

(** The loop of [max]: the running maximum is replaced by an item only
    when the item is strictly greater, so the first of several equal
    maxima is the one returned. *)
Fixpoint max_loop (items : list value) (maxitem : value) : result value :=
  match items with
  | [] => Ok maxitem
  | item :: rest =>
      let* greater := py_gt item maxitem in
      max_loop rest (if greater then item else maxitem)
  end.

(** [max(sequence)]; the text of the error on an empty sequence is the
    one of Python 3.12. *)
Definition py_max (sequence : list value) : result value :=
  match sequence with
  | [] => Raise (ValueError (Text "max() iterable argument is empty"))
  | first :: rest => max_loop rest first
  end.

(** [int(v)]. A string is stripped of surrounding whitespace, may carry
    one sign, and is a run of decimal digits in which single underscores
    may separate digits. The whitespace [int] strips is the ASCII one,
    tab to carriage return and the space, and the two spaces above 127
    that a string which is not ASCII has turned into spaces first, next
    line (133) and no-break space (160); the separators 28 to 31 are
    not stripped. Below 256 the only decimal digits are [0] to [9]. A
    well-formed string of more than [int_max_str_digits] digits, the
    leading zeros counted and the underscores not, is refused. *)
Definition is_whitespace (c : ascii) : bool :=
  let n := nat_of_ascii c in
  ((9 <=? n) && (n <=? 13) || (n =? 32) || (n =? 133) || (n =? 160))%nat.

(** The default of [sys.get_int_max_str_digits()]. *)
Definition int_max_str_digits : nat := 4300.

Definition digit_of (c : ascii) : option Z :=
  let n := nat_of_ascii c in
  if ((48 <=? n) && (n <=? 57))%nat then Some (Z.of_nat n - 48) else None.

Fixpoint lstrip (cs : list ascii) : list ascii :=
  match cs with
  | c :: rest => if is_whitespace c then lstrip rest else cs
  | [] => []
  end.

Definition strip (cs : list ascii) : list ascii := rev (lstrip (rev (lstrip cs))).

(** The digits of a literal: the number they write and how many they
    are. *)
Fixpoint parse_digits (cs : list ascii) (acc : Z) (digits : nat) (after_digit : bool)
  : option (Z * nat) :=
  match cs with
  | [] => if after_digit then Some (acc, digits) else None
  | c :: rest =>
      match digit_of c with
      | Some d => parse_digits rest (10 * acc + d) (S digits) true
      | None =>
          if bool_decide (c = "_"%char) && after_digit
          then parse_digits rest acc digits false
          else None
      end
  end.

Definition negated (literal : Z * nat) : Z * nat := (- literal.1, literal.2).

(** A string read as a literal in base 10: the number it writes and the
    number of its digits, or nothing when it is malformed. *)
Definition decimal_literal (s : string) : option (Z * nat) :=
  match strip (String.list_ascii_of_string s) with
  | "-"%char :: digits => negated <$> parse_digits digits 0 0 false
  | "+"%char :: digits => parse_digits digits 0 0 false
  | digits => parse_digits digits 0 0 false
  end.

(** [int(s)]: [ValueError] on a malformed string, and on a well-formed
    one of too many digits (a string that is both is reported as
    malformed, as the interpreter does from version 3.12 on). *)
Definition int_of_str (s : string) : result Z :=
  match decimal_literal s with
  | None => Raise (ValueError (InvalidLiteral s))
  | Some (z, digits) =>
      if (int_max_str_digits <? digits)%nat
      then Raise (ValueError (ExceedsDigitLimit digits))
      else Ok z
  end.

Definition py_int (v : value) : result Z :=
  match v with
  | PyInt z => Ok z
  | PyBool b => Ok (if b then 1 else 0)
  | PyStr s => int_of_str s
  | _ =>
      Raise (TypeError (Text
        ("int() argument must be a string, a bytes-like object or a real number, not '"
         +:+ type_name v +:+ "'")))
  end.

(** [str(z)] of an integer: its decimal digits, after a minus sign when
    it is negative; an integer of more than [int_max_str_digits] digits
    is refused. *)
Definition decimal_digits (z : Z) : nat := String.length (pretty (Z.abs z)).

Definition py_str (z : Z) : result string :=
  if (int_max_str_digits <? decimal_digits z)%nat
  then Raise (ValueError (ExceedsDigitLimit (decimal_digits z)))
  else Ok (pretty z).

(** ** Paths and [sorted] *)

(** A POSIX path is the list of its parts, and two paths compare as the
    lists of their parts do: by the first part in which they differ, a
    proper prefix coming first. Parts compare as strings, character by
    character. *)
Abbreviation path := (list string).

Fixpoint lex_compare {A : Type} (cmp : A → A → comparison) (p q : list A)
  : comparison :=
  match p, q with
  | [], [] => Eq
  | [], _ :: _ => Lt
  | _ :: _, [] => Gt
  | a :: p', b :: q' =>
      match cmp a b with
      | Eq => lex_compare cmp p' q'
      | c => c
      end
  end.

Definition path_compare : path → path → comparison := lex_compare String.compare.

(** [p < q]. *)
Definition path_lt (p q : path) : bool :=
  match path_compare p q with
  | Lt => true
  | _ => false
  end.

(** [directory / name], for a name of one part. *)
Definition joinpath (directory : path) (name : string) : path := directory ++ [name].

(** [sorted] asks only whether one item is less than another: [p] is
    put before [q] unless [q < p]. Paths are totally ordered, so the
    sorted list does not depend on the sorting algorithm. *)
Definition path_le (p q : path) : Prop := path_lt q p = false.

#[global] Instance path_le_dec : RelDecision path_le.
Proof. intros p q. unfold path_le. apply _. Defined.

Definition sorted (paths : list path) : list path := merge_sort path_le paths.

(** ** [src/tests/templates.py] *)

Module Templates.

(** *** [function_under_test] and [ClassUnderTest] *)

(** The set comprehension
    [{maybe_number for maybe_number in sequence if not isinstance(maybe_number, int)}]:
    the sequence is walked from left to right and every element that is
    not an [int] instance is added to the set, which hashes it. *)
Fixpoint non_numbers_in_sequence (sequence : list value) (found : gset value)
  : result (gset value) :=
  match sequence with
  | [] => Ok found
  | maybe_number :: rest =>
      if isinstance_int maybe_number then non_numbers_in_sequence rest found
      else if hashable maybe_number
           then non_numbers_in_sequence rest (found ∪ {[maybe_number]})
           else Raise (unhashable_type maybe_number)
  end.

Definition function_under_test (sequence_of_numbers : list value) : result value :=
  let* found := non_numbers_in_sequence sequence_of_numbers ∅ in
  if decide (found = ∅) then py_max sequence_of_numbers
  else Raise (TypeError (NonNumbers found)).

Record ClassUnderTest : Type := { _numbers_sequence : list value }.

Definition _construction_guard_clause (numbers_sequence : list value) : result unit :=
  let* found := non_numbers_in_sequence numbers_sequence ∅ in
  if decide (found = ∅) then Ok () else Raise (TypeError (NonNumbers found)).

(** [ClassUnderTest(numbers_sequence)]. *)
Definition ClassUnderTest_init (numbers_sequence : list value) : result ClassUnderTest :=
  let* _checked := _construction_guard_clause numbers_sequence in
  Ok {| _numbers_sequence := numbers_sequence |}.

Definition method_under_test (self : ClassUnderTest) : result value :=
  py_max (_numbers_sequence self).

(** *** The repository protocol *)

(** A method call takes the instance and gives the instance after the
    call together with what the call returned or raised. *)
Class AbstractRepository (R : Type) : Type := {
  create : string → string → R → R * result value;
  read : string → R → R * result value
}.

(** [CloudRepository]. [slept] is not an attribute of the instance: it
    adds up the seconds the instance's calls spent in [time.sleep]. *)
Record CloudRepository : Type := {
  _data_store : gmap string string;
  slept : Z
}.

Definition CloudRepository_init : CloudRepository :=
  {| _data_store := ∅; slept := 0 |}.

Definition _cloud_operation (self : CloudRepository) : CloudRepository :=
  {| _data_store := _data_store self; slept := slept self + 10 |}.

Definition getitem (d : gmap string string) (key : string) : result value :=
  match d !! key with
  | Some v => Ok (PyStr v)
  | None => Raise (KeyError key)
  end.

#[global] Instance CloudRepository_protocol : AbstractRepository CloudRepository := {
  create key value self :=
    let self := _cloud_operation self in
    ({| _data_store := <[key := value]> (_data_store self); slept := slept self |},
     Ok PyNone);
  read key self :=
    let self := _cloud_operation self in
    (self, getitem (_data_store self) key)
}.

(** [DummyRepo]: both bodies are [...], so both calls return [None]. *)
Inductive DummyRepo : Type := DummyRepo_init.

#[global] Instance DummyRepo_protocol : AbstractRepository DummyRepo := {
  create _ _ self := (self, Ok PyNone);
  read _ self := (self, Ok PyNone)
}.

Record FakeRepo : Type := { _data : gmap string string }.

Definition FakeRepo_init : FakeRepo := {| _data := ∅ |}.

#[global] Instance FakeRepo_protocol : AbstractRepository FakeRepo := {
  create key value self := ({| _data := <[key := value]> (_data self) |}, Ok PyNone);
  read key self := (self, getitem (_data self) key)
}.

Inductive StubRepo : Type := StubRepo_init.

#[global] Instance StubRepo_protocol : AbstractRepository StubRepo := {
  create _ _ self := (self, Ok PyNone);
  read _ self := (self, Ok (PyStr "2"))
}.

Record MockRepo : Type := {
  create_call_count : Z;
  create_call_args : list (string * string);
  read_call_count : Z;
  read_call_args : list string
}.

Definition MockRepo_init : MockRepo :=
  {| create_call_count := 0; create_call_args := [];
     read_call_count := 0; read_call_args := [] |}.

#[global] Instance MockRepo_protocol : AbstractRepository MockRepo := {
  create key value self :=
    ({| create_call_count := create_call_count self + 1;
        create_call_args := create_call_args self ++ [(key, value)];
        read_call_count := read_call_count self;
        read_call_args := read_call_args self |},
     Ok PyNone);
  read key self :=
    ({| create_call_count := create_call_count self;
        create_call_args := create_call_args self;
        read_call_count := read_call_count self + 1;
        read_call_args := read_call_args self ++ [key] |},
     Ok (PyStr "2"))
}.

(** *** Functions of the tests that use a repository *)

Section clients.
Context {R : Type} `{AbstractRepository R}.

Definition get_and_parse_value (repo : R) (key : string) : R * result Z :=
  let '(repo, value) := read key repo in
  (repo, let* value := value in py_int value).

(** [sum] pulls the numbers one at a time out of the two chained
    generators, so each key is read and parsed before the next key
    is read, and the first exception ends the loop. *)
Fixpoint sum_numbers (repo : R) (keys : list string) (total : Z) : R * result Z :=
  match keys with
  | [] => (repo, Ok total)
  | key :: rest =>
      let '(repo, value) := read key repo in
      match let* value := value in py_int value with
      | Ok number => sum_numbers repo rest (total + number)
      | Raise e => (repo, Raise e)
      end
  end.

Definition read_parse_sum_data (repo : R) (keys : list string) : R * result Z :=
  sum_numbers repo keys 0.

Definition load_many_values_sum_and_create_new_entry (repo : R) (keys : list string)
  : R * result value :=
  match sum_numbers repo keys 0 with
  | (repo, Ok total) =>
      match py_str total with
      | Ok text =>
          let '(repo, created) := create "total" text repo in
          (repo, let* _created := created in Ok PyNone)
      | Raise e => (repo, Raise e)
      end
  | (repo, Raise e) => (repo, Raise e)
  end.
End clients.

(** *** [Transformer] and [CompositeClassUnderTest] *)

(** A dataframe with the two columns of the tests, kept as the list of
    its rows; a number may be null. *)
Record Row : Type := {
  letter_column : string;
  number_column : option Z
}.

Abbreviation DataFrame := (list Row).

(** [number_column <= 2] on a row: null on a null number. *)
Definition number_column_le (bound : Z) (row : Row) : option bool :=
  (λ number, number <=? bound) <$> number_column row.

(** [dataframe.filter(condition)] keeps the rows on which the condition
    is true, and drops those on which it is false or null. *)
Definition DataFrame_filter (condition : Row → option bool) (dataframe : DataFrame)
  : DataFrame :=
  filter (λ row, condition row = Some true) dataframe.

Class Transformer (T : Type) : Type := {
  transform : T → DataFrame → DataFrame
}.

Inductive FakeTransformer : Type := FakeTransformer_init.

#[global] Instance FakeTransformer_protocol : Transformer FakeTransformer := {
  transform _ input_data := DataFrame_filter (number_column_le 2) input_data
}.

Record CompositeClassUnderTest (T : Type) : Type := { _behavior_object : T }.
Arguments _behavior_object {T} _.

Section composite.
Context {T : Type} `{Transformer T}.

Definition _transform (self : CompositeClassUnderTest T) (input_data : DataFrame)
  : DataFrame :=
  transform (_behavior_object self) input_data.

Definition run (self : CompositeClassUnderTest T) (input_data : DataFrame) : DataFrame :=
  _transform self input_data.
End composite.

(** *** [DirectorySorter] *)

Inductive os_error : Type :=
  | FileNotFoundError
  | NotADirectoryError.

Inductive os_result (A : Type) : Type :=
  | Returned (a : A)
  | OSError (e : os_error).
Arguments Returned {A} a.
Arguments OSError {A} e.

Record DirectorySorter : Type := { _directory : path }.

Section directory.
(** The file system: the names of the entries of a directory, in the
    order in which the system lists them, or the error of listing it. *)
Variable listdir : path → os_result (list string).

Definition iterdir (directory : path) : os_result (list path) :=
  match listdir directory with
  | Returned names => Returned (joinpath directory <$> names)
  | OSError e => OSError e
  end.

(** The tuple returned is kept as the list of its items. *)
Definition get_sorted_filepaths (self : DirectorySorter) : os_result (list path) :=
  match iterdir (_directory self) with
  | Returned filepaths => Returned (sorted filepaths)
  | OSError e => OSError e
  end.
End directory.

(** *** Sequences of calls on one instance *)

Inductive call : Type :=
  | Create (key value : string)
  | Read (key : string).

Section calls.
Context {R : Type} `{AbstractRepository R}.

Definition perform (c : call) (repo : R) : R * result value :=
  match c with
  | Create key value => create key value repo
  | Read key => read key repo
  end.

(** The instance after the calls, each call made whatever the earlier
    ones returned or raised, and the outcome of every call in order. *)
Fixpoint perform_all (calls : list call) (repo : R) : R * list (result value) :=
  match calls with
  | [] => (repo, [])
  | c :: rest =>
      let '(repo, outcome) := perform c repo in
      let '(repo, outcomes) := perform_all rest repo in
      (repo, outcome :: outcomes)
  end.

Definition after (calls : list call) (repo : R) : R := (perform_all calls repo).1.
Definition outcomes (calls : list call) (repo : R) : list (result value) :=
  (perform_all calls repo).2.
End calls.

End Templates.

(** ** [src/tests/conftest.py] *)

Module Conftest.

(** The attributes of pytest's session object that the hook and the
    session driver use. *)
Record Session : Type := {
  exitstatus : Z;
  testsfailed : nat;
  testscollected : nat
}.

Definition with_exitstatus (status : Z) (session : Session) : Session :=
  {| exitstatus := status;
     testsfailed := testsfailed session;
     testscollected := testscollected session |}.

Definition pytest_sessionstart (session : Session) : Session :=
  if exitstatus session =? 5 then with_exitstatus 0 session else session.

(** pytest's exit codes. *)
Definition OK : Z := 0.
Definition TESTS_FAILED : Z := 1.
Definition NO_TESTS_COLLECTED : Z := 5.

(** The hooks a conftest module can define around the session. pytest
    looks hooks up by their function name. *)
Record Hooks : Type := {
  sessionstart_hook : option (Session → Session);
  sessionfinish_hook : option (Session → Z → Session)
}.

(** The hooks [conftest.py] defines: one function, named
    [pytest_sessionstart]. *)
Definition conftest : Hooks :=
  {| sessionstart_hook := Some pytest_sessionstart;
     sessionfinish_hook := None |}.

(** The session driver of pytest ([wrap_session] and [_main] of
    [_pytest/main.py]), which is not part of this repository, for a run
    that is not interrupted: the status starts as [OK], the
    [pytest_sessionstart] hook is called before anything is collected,
    collection and the tests then decide the status, the
    [pytest_sessionfinish] hook is called with it, and the status left
    on the session is the exit code of the process. *)
Definition main_status (session : Session) : Z :=
  if (0 <? testsfailed session)%nat then TESTS_FAILED
  else if (testscollected session =? 0)%nat then NO_TESTS_COLLECTED
  else OK.

Definition wrap_session (hooks : Hooks) (collected failed : nat) : Z :=
  let session := {| exitstatus := OK; testsfailed := 0; testscollected := 0 |} in
  let session := default id (sessionstart_hook hooks) session in
  let session := {| exitstatus := exitstatus session;
                    testsfailed := failed; testscollected := collected |} in
  let session := with_exitstatus (main_status session) session in
  let session :=
    match sessionfinish_hook hooks with
    | Some hook => hook session (exitstatus session)
    | None => session
    end in
  exitstatus session.

End Conftest.

(** ** [src/tasks.py] *)

Module Tasks.

(** A command handed to the shell by the context: by [run] or by
    [sudo], in the directories entered with [cd]. *)
Inductive invocation : Type :=
  | Run (cwds : list string) (command : string)
  | Sudo (cwds : list string) (command : string) (password : string).

Inductive failure : Type :=
  | FileNotFoundError
  | YAMLError
  | MissingKey (key : string)
  | UnexpectedExit (command : invocation) (exited : Z).

Inductive outcome (A : Type) : Type :=
  | Done (a : A)
  | Failed (e : failure).
Arguments Done {A} a.
Arguments Failed {A} e.

(** The context of invoke: the stack of directories entered with [cd],
    and, for the proofs, the commands handed to the shell so far. *)
Record Context : Type := {
  command_cwds : list string;
  history : list invocation
}.

Definition Context_init : Context := {| command_cwds := []; history := [] |}.

Definition action (A : Type) : Type := Context → Context * outcome A.

Definition bind_action {A B : Type} (m : action A) (k : A → action B) : action B :=
  λ context,
    match m context with
    | (context, Done a) => k a context
    | (context, Failed e) => (context, Failed e)
    end.

Notation "m1 ;;; m2" := (bind_action m1 (λ _, m2))
  (at level 100, m2 at level 200, right associativity, only parsing).

Section machine.
(** What lies outside the script: the text of [secrets.yaml] ([None]
    when the file is absent), the YAML loader on such a text ([None]
    when the text is malformed; the loaded document is a mapping of
    strings, as [_read_secrets] is annotated), and the exit code of a
    command given the commands that ran before it. *)
Variable read_text : option string.
Variable yaml_load : string → option (gmap string string).
Variable exit_code : list invocation → invocation → Z.

Definition _read_secrets : outcome (gmap string string) :=
  match read_text with
  | None => Failed FileNotFoundError
  | Some stream =>
      match yaml_load stream with
      | None => Failed YAMLError
      | Some secrets => Done secrets
      end
  end.

Definition subscript (secrets : gmap string string) (key : string) : outcome string :=
  match secrets !! key with
  | Some v => Done v
  | None => Failed (MissingKey key)
  end.

(** The command is handed to the shell and the call blocks until it
    exits; a non-zero exit code raises [UnexpectedExit]. *)
Definition execute (command : invocation) : action unit :=
  λ context,
    let code := exit_code (history context) command in
    let context := {| command_cwds := command_cwds context;
                      history := history context ++ [command] |} in
    if code =? 0 then (context, Done ())
    else (context, Failed (UnexpectedExit command code)).

Definition run (command : string) : action unit :=
  λ context, execute (Run (command_cwds context) command) context.

Definition sudo (command password : string) : action unit :=
  λ context, execute (Sudo (command_cwds context) command password) context.

(** [with context.cd(path): body]: the directory is pushed for the
    body and popped when the body ends, normally or by an
    exception. *)
Definition cd {A : Type} (path : string) (body : action A) : action A :=
  λ context,
    let entered := {| command_cwds := command_cwds context ++ [path];
                      history := history context |} in
    let '(exited, result) := body entered in
    ({| command_cwds := command_cwds context; history := history exited |}, result).

Definition cmd_clone_repo : string :=
  "git clone https://aur.archlinux.org/visual-studio-code-insiders-bin.git".
Definition repo_path : string := "visual-studio-code-insiders-bin".

Definition update_vscode : action unit :=
  λ context,
    match (match _read_secrets with
           | Done secrets => subscript secrets "password"
           | Failed e => Failed e
           end) with
    | Failed e => (context, Failed e)
    | Done password =>
        (run cmd_clone_repo ;;;
         cd repo_path
           (run "echo 'Y' | makepkg -si" ;;;
            sudo "pacman -U" password) ;;;
         sudo "rm -rf ./visual-studio-code-insiders-bin" password) context
    end.
End machine.

End Tasks.

(** * Vocabulary of the statements *)

Import Templates Conftest Tasks.

(** [v] is an integer of Python: an [int] or a [bool]. *)
Definition integer (v : value) : Prop :=
  (∃ z, v = PyInt z) ∨ (∃ b, v = PyBool b).

(** [v] passes the check of the guard. *)
Definition is_int (v : value) : Prop := isinstance_int v = true.

(** The values of a sequence that are not [int] instances, as a set. *)
Definition offending (numbers : list value) : gset value :=
  list_to_set (filter (λ v, isinstance_int v = false) numbers).

(** The error message names exactly the offending values of the
    sequence: it carries a set whose members are the elements of the
    sequence that are not [int] instances. *)
Definition names_offending_values (numbers : list value) : Prop :=
  ∃ found, function_under_test numbers = Raise (TypeError (NonNumbers found))
           ∧ ∀ v, v ∈ found ↔ v ∈ numbers ∧ ¬ integer v.

(** The mapping a sequence of calls writes into [store]: every [create]
    assigns its key, later assignments replacing earlier ones. *)
Definition write (store : gmap string string) (c : call) : gmap string string :=
  match c with
  | Create key value => <[key := value]> store
  | Read _ => store
  end.

Definition written (calls : list call) (store : gmap string string)
  : gmap string string :=
  foldl write store calls.

(** The arguments of the [create] calls and of the [read] calls of a
    sequence, in the order of the calls. *)
Definition create_args (calls : list call) : list (string * string) :=
  omap (λ c, match c with Create key value => Some (key, value) | Read _ => None end)
       calls.

Definition read_args (calls : list call) : list string :=
  omap (λ c, match c with Create _ _ => None | Read key => Some key end) calls.

(** The four commands of [update_vscode], in the order of the script. *)
Definition steps (password : string) : list invocation :=
  [ Run [] cmd_clone_repo;
    Run [repo_path] "echo 'Y' | makepkg -si";
    Sudo [repo_path] "pacman -U" password;
    Sudo [] "rm -rf ./visual-studio-code-insiders-bin" password ].

(** A machine on which the third command run exits with 1. *)
Definition install_fails (ran : list invocation) (command : invocation) : Z :=
  if (length ran =? 2)%nat then 1 else 0.

(** The number an integer of Python counts as, 0 for any other value. *)
Definition as_number (v : value) : Z := default 0 (int_value v).


(** The number a store holds under [key]: what [int] returns on its
    entry, when there is an entry and [int] returns on it. *)
Definition stored_number (store : gmap string string) (key : string) : option Z :=
  store !! key ≫= λ text,
    match int_of_str text with
    | Ok number => Some number
    | Raise _ => None
    end.

Definition sum_Z (zs : list Z) : Z := foldr Z.add 0 zs.

(** The sum of the numbers a store holds under the keys. *)
Definition stored_sum (store : gmap string string) (keys : list string) : Z :=
  sum_Z ((λ key, default 0 (stored_number store key)) <$> keys).

(** One name does not come after another in the order of strings. *)
Definition name_le (s t : string) : Prop := String.compare s t ≠ Gt.

(** The four commands of [update_vscode] on a context that has entered
    the directories [cwds]. *)
Definition steps_in (cwds : list string) (password : string) : list invocation :=
  [ Run cwds cmd_clone_repo;
    Run (cwds ++ [repo_path]) "echo 'Y' | makepkg -si";
    Sudo (cwds ++ [repo_path]) "pacman -U" password;
    Sudo cwds "rm -rf ./visual-studio-code-insiders-bin" password ].

(** A conftest module that defines no session hook. *)
Definition no_hooks : Hooks :=
  {| sessionstart_hook := None; sessionfinish_hook := None |}.

(** * Properties *)

(** ** The scenarios of the tests *)

Example function_under_test_1_to_5 :
  function_under_test [PyInt 1; PyInt 2; PyInt 3; PyInt 4; PyInt 5] = Ok (PyInt 5).
Proof. reflexivity. Qed.

Example function_under_test_non_number :
  function_under_test [PyInt 1; PyStr "non_number"]
  = Raise (TypeError (NonNumbers {[ PyStr "non_number" ]})).
Proof. vm_compute. reflexivity. Qed.

(** On that input [max] alone would raise its own error: the guard comes
    first. *)
Example py_max_non_number :
  py_max [PyInt 1; PyStr "non_number"]
  = Raise (TypeError (Text "'>' not supported between instances of 'str' and 'int'")).
Proof. reflexivity. Qed.

Example function_under_test_empty :
  function_under_test [] = Raise (ValueError (Text "max() iterable argument is empty")).
Proof. reflexivity. Qed.

Example ClassUnderTest_non_number :
  ClassUnderTest_init [PyInt 1; PyStr "non_number"]
  = Raise (TypeError (NonNumbers {[ PyStr "non_number" ]})).
Proof. vm_compute. reflexivity. Qed.

Example FakeRepo_get_and_parse_value :
  (get_and_parse_value (create "2" "2" FakeRepo_init).1 "2").2 = Ok 2.
Proof. reflexivity. Qed.

Example DummyRepo_get_and_parse_value :
  (get_and_parse_value DummyRepo_init "2").2
  = Raise (TypeError (Text
      "int() argument must be a string, a bytes-like object or a real number, not 'NoneType'")).
Proof. reflexivity. Qed.

Example pytest_sessionstart_5 :
  exitstatus (pytest_sessionstart
                {| exitstatus := 5; testsfailed := 0; testscollected := 0 |}) = 0.
Proof. reflexivity. Qed.

(** ** The maximum of a validated sequence *)

Section maximum.

Lemma integer_is_int (v : value) : integer v ↔ is_int v.
Proof.
  split; [by intros [[z ->]|[b ->]]|].
  destruct v; try discriminate; [left | right]; by eexists.
Qed.

Lemma integers_are_int (numbers : list value) :
  Forall integer numbers → Forall is_int numbers.
Proof. intros Hall. eapply list.Forall_impl; [exact Hall|]. intros v. apply integer_is_int. Qed.

Lemma is_int_value (v : value) : is_int v → ∃ z, int_value v = Some z.
Proof. destruct v; unfold is_int; simpl; intros; try discriminate; eauto. Qed.

Lemma py_gt_ints (a b : value) (x y : Z) :
  int_value a = Some x → int_value b = Some y → py_gt a b = Ok (y <? x).
Proof.
  intros Ha Hb.
  destruct a; try discriminate; destruct b; try discriminate;
    simpl in *; congruence.
Qed.

(** The set comprehension leaves the set alone on [int] instances. *)
Lemma non_numbers_all_int (numbers : list value) (found : gset value) :
  Forall is_int numbers → non_numbers_in_sequence numbers found = Ok found.
Proof.
  induction 1 as [|v rest Hv _ IH]; simpl; [reflexivity|].
  unfold is_int in Hv. by rewrite Hv.
Qed.

(** What the loop of [max] returns on [int] instances: an item of the
    sequence that no item exceeds. *)
Lemma max_loop_ints (items : list value) :
  Forall is_int items → ∀ maxitem zmax, int_value maxitem = Some zmax →
  ∃ m zm, max_loop items maxitem = Ok m
    ∧ m ∈ maxitem :: items
    ∧ int_value m = Some zm
    ∧ zmax ≤ zm
    ∧ ∀ x, x ∈ items → ∃ zx, int_value x = Some zx ∧ zx ≤ zm.
Proof.
  induction 1 as [|item rest Hitem _ IH]; intros maxitem zmax Hmax; simpl.
  - exists maxitem, zmax. repeat split; [left | done | lia |].
    intros x Hx. by apply elem_of_nil in Hx.
  - destruct (is_int_value _ Hitem) as [zi Hzi].
    rewrite (py_gt_ints _ _ _ _ Hzi Hmax). simpl.
    destruct (Z.ltb_spec zmax zi) as [Hlt|Hge].
    + destruct (IH item zi Hzi) as (m & zm & Hloop & Hin & Hm & Hle & Hall).
      exists m, zm. repeat split; [done | | done | lia |].
      * right. exact Hin.
      * intros x [->|Hx]%elem_of_cons; [eauto | by apply Hall].
    + destruct (IH maxitem zmax Hmax) as (m & zm & Hloop & Hin & Hm & Hle & Hall).
      exists m, zm. repeat split; [done | | done | done |].
      * apply elem_of_cons in Hin as [->|Hin]; [left | right; by right].
      * intros x [->|Hx]%elem_of_cons; [exists zi; split; [done|lia] | by apply Hall].
Qed.

Lemma py_max_ints (numbers : list value) :
  numbers ≠ [] → Forall is_int numbers →
  ∃ m zm, py_max numbers = Ok m
    ∧ m ∈ numbers
    ∧ int_value m = Some zm
    ∧ ∀ x, x ∈ numbers → ∃ zx, int_value x = Some zx ∧ zx ≤ zm.
Proof.
  intros Hne Hall. destruct numbers as [|first rest]; [done|].
  inversion Hall as [|? ? Hfirst Hrest]; subst.
  destruct (is_int_value _ Hfirst) as [zf Hzf].
  destruct (max_loop_ints rest Hrest first zf Hzf)
    as (m & zm & Hloop & Hin & Hm & Hle & Hle').
  exists m, zm. repeat split; [done | done | done |].
  intros x [->|Hx]%elem_of_cons; [eauto | by apply Hle'].
Qed.

Lemma function_under_test_all_int (numbers : list value) :
  Forall is_int numbers → function_under_test numbers = py_max numbers.
Proof.
  intros Hall. unfold function_under_test.
  rewrite (non_numbers_all_int _ _ Hall). simpl.
  by destruct (decide _).
Qed.

Lemma ClassUnderTest_init_all_int (numbers : list value) :
  Forall is_int numbers →
  ClassUnderTest_init numbers = Ok {| _numbers_sequence := numbers |}.
Proof.
  intros Hall. unfold ClassUnderTest_init, _construction_guard_clause.
  rewrite (non_numbers_all_int _ _ Hall). simpl.
  by destruct (decide _).
Qed.

End maximum.

(** C1. On a non-empty sequence whose elements are all integers ([int]
    or [bool] values), [function_under_test] returns an element of the sequence that is
    greater than or equal to every element; the constructor of
    [ClassUnderTest] accepts the sequence and [method_under_test]
    returns the same element. *)
Theorem function_under_test_returns_maximum (numbers : list value) :
  numbers ≠ [] → Forall integer numbers →
  ∃ m zm,
    function_under_test numbers = Ok m
    ∧ (∃ self, ClassUnderTest_init numbers = Ok self ∧ method_under_test self = Ok m)
    ∧ m ∈ numbers
    ∧ int_value m = Some zm
    ∧ ∀ x, x ∈ numbers → ∃ zx, int_value x = Some zx ∧ zx ≤ zm.
Proof.
  intros Hne Hall%integers_are_int.
  destruct (py_max_ints numbers Hne Hall) as (m & zm & Hmax & Hin & Hm & Hle).
  exists m, zm. split; [|split; [|done]].
  - by rewrite function_under_test_all_int.
  - eexists. split; [by apply ClassUnderTest_init_all_int | done].
Qed.

Lemma function_under_test_returns_maximum_witness :
  ∃ m zm,
    function_under_test [PyInt 3; PyInt (-7); PyInt 12; PyInt 5] = Ok m
    ∧ (∃ self, ClassUnderTest_init [PyInt 3; PyInt (-7); PyInt 12; PyInt 5] = Ok self
               ∧ method_under_test self = Ok m)
    ∧ m ∈ [PyInt 3; PyInt (-7); PyInt 12; PyInt 5]
    ∧ int_value m = Some zm
    ∧ ∀ x, x ∈ [PyInt 3; PyInt (-7); PyInt 12; PyInt 5] →
           ∃ zx, int_value x = Some zx ∧ zx ≤ zm.
Proof.
  apply (function_under_test_returns_maximum [PyInt 3; PyInt (-7); PyInt 12; PyInt 5]).
  - discriminate.
  - repeat apply Forall_cons_2; [left; by eexists.. | apply Forall_nil_2].
Defined.

(** ** The validation error *)

Section validation.

Lemma elem_of_offending (numbers : list value) (v : value) :
  v ∈ offending numbers ↔ v ∈ numbers ∧ ¬ integer v.
Proof.
  rewrite integer_is_int.
  unfold offending, is_int. rewrite elem_of_list_to_set, list_elem_of_filter.
  destruct (isinstance_int v); split; intros [? ?]; split; congruence.
Qed.

Lemma offending_cons (v : value) (numbers : list value) :
  offending (v :: numbers)
  = if isinstance_int v then offending numbers else {[v]} ∪ offending numbers.
Proof.
  unfold offending. rewrite filter_cons.
  destruct (decide (isinstance_int v = false)) as [->| ->%not_false_is_true];
    reflexivity.
Qed.

(** When the comprehension returns, it returns the set of all the
    elements that are not [int] instances. *)
Lemma non_numbers_returns (numbers : list value) :
  ∀ found found', non_numbers_in_sequence numbers found = Ok found' →
  found' = found ∪ offending numbers.
Proof.
  induction numbers as [|v rest IH]; intros found found'; simpl.
  - intros [= <-]. unfold offending. simpl. set_solver.
  - rewrite offending_cons. destruct (isinstance_int v); [apply IH|].
    destruct (hashable v); [|discriminate].
    intros ->%IH. set_solver.
Qed.

(** It returns whenever every element can be hashed. *)
Lemma non_numbers_hashable (numbers : list value) :
  Forall (λ v, hashable v = true) numbers →
  ∀ found, non_numbers_in_sequence numbers found = Ok (found ∪ offending numbers).
Proof.
  induction 1 as [|v rest Hv _ IH]; intros found; simpl.
  - unfold offending. simpl. f_equal. set_solver.
  - rewrite offending_cons, Hv.
    destruct (isinstance_int v); [apply IH|].
    rewrite IH. f_equal. set_solver.
Qed.

(** It raises on the first element that cannot be hashed. *)
Lemma non_numbers_unhashable (before : list value) (v : value) (rest : list value) :
  Forall (λ v, hashable v = true) before → hashable v = false →
  ∀ found, non_numbers_in_sequence (before ++ v :: rest) found
           = Raise (unhashable_type v).
Proof.
  intros Hbefore Hv.
  induction Hbefore as [|w before Hw _ IH]; intros found; simpl.
  - destruct v; try discriminate. reflexivity.
  - rewrite Hw. destruct (isinstance_int w); apply IH.
Qed.

(** Every sequence either can be hashed throughout or splits at its
    first element that cannot. *)
Lemma first_unhashable (numbers : list value) :
  Forall (λ v, hashable v = true) numbers
  ∨ ∃ before v rest, numbers = before ++ v :: rest
      ∧ Forall (λ v, hashable v = true) before ∧ hashable v = false.
Proof.
  induction numbers as [|w numbers IH]; [by left|].
  destruct (hashable w) eqn:Hw.
  - destruct IH as [IH|(before & v & rest & -> & Hb & Hv)].
    + left. by constructor.
    + right. exists (w :: before), v, rest. repeat split; [|done]. by constructor.
  - right. exists [], w, numbers. repeat split; [constructor | done].
Qed.

Lemma offending_empty (numbers : list value) :
  offending numbers = ∅ ↔ Forall is_int numbers.
Proof.
  rewrite list.Forall_forall. split.
  - intros Hempty v Hv. unfold is_int.
    destruct (isinstance_int v) eqn:Hint; [reflexivity|].
    assert (v ∈ offending numbers) as Hin.
    { apply elem_of_offending. split; [exact Hv|].
      rewrite integer_is_int. unfold is_int. congruence. }
    rewrite Hempty in Hin. by apply not_elem_of_empty in Hin.
  - intros Hall. apply leibniz_equiv, elem_of_equiv_empty. intros v.
    rewrite elem_of_offending, integer_is_int. naive_solver.
Qed.

Lemma not_all_int (numbers : list value) :
  ¬ Forall is_int numbers ↔ Exists (λ v, ¬ integer v) numbers.
Proof.
  setoid_rewrite integer_is_int. unfold is_int. split.
  - intros H. apply not_Forall_Exists in H; [exact H|].
    intros v. destruct (isinstance_int v); [by left | by right].
  - intros H Hall. apply list.Exists_exists in H as (v & Hv & Hn).
    rewrite list.Forall_forall in Hall. by apply Hn, Hall.
Qed.

Lemma py_max_no_type_error (numbers : list value) :
  Forall is_int numbers → ∀ msg, py_max numbers ≠ Raise (TypeError msg).
Proof.
  intros Hall msg. destruct numbers as [|first rest]; [discriminate|].
  destruct (py_max_ints (first :: rest)) as (m & zm & -> & _); done.
Qed.

(** The outcome of [function_under_test] on a sequence that holds an
    element that is not an [int] instance. *)
Lemma function_under_test_hashable (numbers : list value) :
  Forall (λ v, hashable v = true) numbers → ¬ Forall is_int numbers →
  function_under_test numbers = Raise (TypeError (NonNumbers (offending numbers))).
Proof.
  intros Hhash Hnot. unfold function_under_test.
  rewrite (non_numbers_hashable _ Hhash). simpl.
  rewrite union_empty_l_L.
  destruct (decide _) as [Hempty|_]; [|done].
  by apply offending_empty in Hempty.
Qed.

End validation.

(** On a sequence whose elements can all be hashed the validation error
    does what its message is written for: [function_under_test] raises
    a [TypeError] exactly when an element is not an integer, and the
    message then names the offending values, each once. *)
Lemma function_under_test_names_hashable_offenders (numbers : list value) :
  ((∃ msg, function_under_test numbers = Raise (TypeError msg))
   ↔ Exists (λ v, ¬ integer v) numbers)
  ∧ (Forall (λ v, hashable v = true) numbers →
     Exists (λ v, ¬ integer v) numbers →
     names_offending_values numbers).
Proof.
  split.
  - split.
    + intros [msg Hraise]. apply not_all_int. intros Hall.
      rewrite (function_under_test_all_int _ Hall) in Hraise.
      by apply (py_max_no_type_error _ Hall msg).
    + intros Hex%not_all_int.
      destruct (first_unhashable numbers)
        as [Hhash|(before & v & rest & -> & Hbefore & Hv)].
      * eexists. by apply function_under_test_hashable.
      * unfold function_under_test.
        rewrite (non_numbers_unhashable _ _ _ Hbefore Hv). simpl. by eexists.
  - intros Hhash Hex%not_all_int.
    exists (offending numbers). split.
    + by apply function_under_test_hashable.
    + apply elem_of_offending.
Qed.

(** C2. On [[1, []]], a sequence with an offending value that cannot be
    hashed, [function_under_test] raises
    [TypeError: unhashable type: 'list'] out of the set comprehension:
    the error is a [TypeError], but its message does not name the
    offending values, which the message of the guard is written to do
    and does on [[1, "x"]]. *)
Theorem validation_error_misses_unhashable_value :
  Exists (λ v, ¬ integer v) [PyInt 1; PyList []]
  ∧ function_under_test [PyInt 1; PyList []]
    = Raise (TypeError (Text "unhashable type: 'list'"))
  ∧ ¬ names_offending_values [PyInt 1; PyList []]
  ∧ function_under_test [PyInt 1; PyStr "x"]
    = Raise (TypeError (NonNumbers {[ PyStr "x" ]})).
Proof.
  split; [|split; [|split]].
  - apply Exists_cons_tl, Exists_cons_hd. by intros [[z [=]]|[b [=]]].
  - reflexivity.
  - intros (found & Hraise & _). discriminate Hraise.
  - vm_compute. reflexivity.
Qed.

(** ** Booleans in the sequence *)

Section messages.

(** The comparison raises with a plain text only. *)
Lemma py_gt_raises_text (a : value) :
  ∀ b e, py_gt a b = Raise e → ∃ text, e = TypeError (Text text).
Proof.
  induction a as [z|c|s| |xs IHxs] using value_ind';
    intros [z'|c'|s'| |ys] e Hgt; simpl in Hgt;
    try discriminate; try (injection Hgt as <-; by eexists).
  revert ys Hgt. induction IHxs as [|x xs Hx _ IH]; intros ys Hgt.
  - destruct ys; discriminate.
  - destruct ys as [|y ys]; [discriminate|].
    destruct (py_eq x y); [by apply (IH ys) | by apply (Hx y)].
Qed.

Lemma max_loop_raises_text (items : list value) :
  ∀ maxitem e, max_loop items maxitem = Raise e → ∃ text, e = TypeError (Text text).
Proof.
  induction items as [|item items IH]; intros maxitem e; simpl; [discriminate|].
  destruct (py_gt item maxitem) as [greater|e'] eqn:Hgt; simpl; [apply IH|].
  intros [= <-]. by apply py_gt_raises_text in Hgt.
Qed.

Lemma non_numbers_raises_text (sequence : list value) :
  ∀ found e, non_numbers_in_sequence sequence found = Raise e →
  ∃ text, e = TypeError (Text text).
Proof.
  induction sequence as [|v rest IH]; intros found e; simpl; [discriminate|].
  destruct (isinstance_int v); [apply IH|].
  destruct (hashable v); [apply IH|].
  intros [= <-]. by eexists.
Qed.

(** A validation error carries the offending values of the sequence,
    and there is at least one. *)
Lemma function_under_test_non_numbers (sequence : list value) (found : gset value) :
  function_under_test sequence = Raise (TypeError (NonNumbers found)) →
  found = offending sequence ∧ found ≠ ∅.
Proof.
  unfold function_under_test.
  destruct (non_numbers_in_sequence sequence ∅) as [found'|e] eqn:Hfound; simpl.
  - apply non_numbers_returns in Hfound. rewrite union_empty_l_L in Hfound.
    subst found'. destruct (decide _) as [_|Hne].
    + destruct sequence as [|first rest]; [discriminate|]. simpl.
      intros (text & [=])%max_loop_raises_text.
    + by intros [= <-].
  - intros [= ->]. by apply non_numbers_raises_text in Hfound as (text & [=]).
Qed.

End messages.

(** C10. On a sequence of booleans and integers [function_under_test]
    raises no [TypeError]; when the sequence is not empty it returns an
    element of the sequence that no element exceeds, [True] counting as
    1 and [False] as 0. [function_under_test([True, False])] returns
    [True], and no boolean is ever a member of the set a validation
    error carries. *)
Theorem function_under_test_accepts_booleans (numbers : list value) :
  Forall integer numbers →
  (∀ msg, function_under_test numbers ≠ Raise (TypeError msg))
  ∧ (numbers ≠ [] →
     ∃ m zm, function_under_test numbers = Ok m
       ∧ m ∈ numbers
       ∧ int_value m = Some zm
       ∧ (∀ b : bool, PyBool b ∈ numbers → (if b then 1 else 0) ≤ zm)
       ∧ (∀ z : Z, PyInt z ∈ numbers → z ≤ zm))
  ∧ function_under_test [PyBool true; PyBool false] = Ok (PyBool true)
  ∧ (∀ sequence found b,
       function_under_test sequence = Raise (TypeError (NonNumbers found)) →
       PyBool b ∉ found).
Proof.
  intros Hall.
  pose proof (integers_are_int _ Hall) as Hint.
  split; [|split; [|split]].
  - intros msg. rewrite (function_under_test_all_int _ Hint).
    by apply py_max_no_type_error.
  - intros Hne.
    destruct (py_max_ints numbers Hne Hint) as (m & zm & Hmax & Hin & Hm & Hle).
    exists m, zm. rewrite (function_under_test_all_int _ Hint).
    repeat split; [done | done | done | |].
    + intros b Hb. destruct (Hle _ Hb) as (zx & [= <-] & Hzx). exact Hzx.
    + intros z Hz. destruct (Hle _ Hz) as (zx & [= <-] & Hzx). exact Hzx.
  - reflexivity.
  - intros sequence found b [-> _]%function_under_test_non_numbers.
    rewrite elem_of_offending. intros [_ Hb]. apply Hb. right. by eexists.
Qed.

Lemma function_under_test_accepts_booleans_witness :
  (∀ msg, function_under_test [PyBool false; PyInt (-4); PyBool true]
          ≠ Raise (TypeError msg))
  ∧ ∃ m zm, function_under_test [PyBool false; PyInt (-4); PyBool true] = Ok m
      ∧ m ∈ [PyBool false; PyInt (-4); PyBool true]
      ∧ int_value m = Some zm
      ∧ (∀ b : bool, PyBool b ∈ [PyBool false; PyInt (-4); PyBool true] →
                     (if b then 1 else 0) ≤ zm)
      ∧ (∀ z : Z, PyInt z ∈ [PyBool false; PyInt (-4); PyBool true] → z ≤ zm).
Proof.
  destruct (function_under_test_accepts_booleans
              [PyBool false; PyInt (-4); PyBool true]) as (Hno & Hmax & _).
  { repeat apply Forall_cons_2; [right | left | right | apply Forall_nil_2]; by eexists. }
  split; [exact Hno|]. apply Hmax. discriminate.
Defined.

(** ** Repositories under sequences of calls *)

Section calls_facts.
Context {R : Type} `{AbstractRepository R}.

Lemma perform_all_app (xs ys : list call) (repo : R) :
  perform_all (xs ++ ys) repo
  = (after ys (after xs repo), outcomes xs repo ++ outcomes ys (after xs repo)).
Proof.
  unfold after, outcomes. revert repo.
  induction xs as [|c xs IH]; intros repo; simpl.
  - by destruct (perform_all ys repo).
  - destruct (perform c repo) as [repo' outcome].
    rewrite IH. by destruct (perform_all xs repo').
Qed.

Lemma after_app (xs ys : list call) (repo : R) :
  after (xs ++ ys) repo = after ys (after xs repo).
Proof. unfold after at 1. by rewrite perform_all_app. Qed.

Lemma after_cons (c : call) (calls : list call) (repo : R) :
  after (c :: calls) repo = after calls (perform c repo).1.
Proof.
  unfold after. simpl. destruct (perform c repo) as [repo' outcome]. simpl.
  by destruct (perform_all calls repo').
Qed.

Lemma outcomes_cons (c : call) (calls : list call) (repo : R) :
  outcomes (c :: calls) repo
  = (perform c repo).2 :: outcomes calls (perform c repo).1.
Proof.
  unfold outcomes. simpl. destruct (perform c repo) as [repo' outcome]. simpl.
  by destruct (perform_all calls repo').
Qed.
End calls_facts.

Section written_facts.

Lemma written_app (xs ys : list call) (store : gmap string string) :
  written (xs ++ ys) store = written ys (written xs store).
Proof. apply foldl_app. Qed.

(** Calls that do not create [k] leave the entry of [k] alone. *)
Lemma written_untouched (calls : list call) (k : string) :
  (∀ v, Create k v ∉ calls) →
  ∀ store, written calls store !! k = store !! k.
Proof.
  induction calls as [|c calls IH]; intros Hnone store; [reflexivity|].
  unfold written. simpl. fold (written calls (write store c)).
  rewrite IH.
  - destruct c as [key value|key]; simpl; [|reflexivity].
    apply lookup_insert_ne. intros ->. apply (Hnone value). left.
  - intros v Hv. apply (Hnone v). by right.
Qed.

(** The entry of [k] is the value of the last call that creates [k]. *)
Lemma written_last_create (before later : list call) (k v : string) :
  (∀ v', Create k v' ∉ later) →
  ∀ store, written (before ++ Create k v :: later) store !! k = Some v.
Proof.
  intros Hnone store. rewrite written_app.
  change (written (Create k v :: later) ?s) with (written later (<[k := v]> s)).
  rewrite written_untouched by done. apply lookup_insert_eq.
Qed.

(** A key is absent exactly when it was absent and never created. *)
Lemma written_absent (calls : list call) (k : string) :
  ∀ store, written calls store !! k = None
           ↔ store !! k = None ∧ ∀ v, Create k v ∉ calls.
Proof.
  induction calls as [|c calls IH]; intros store.
  - simpl. split; [|by intros [? _]].
    intros Hk. split; [done|]. intros v Hv. by apply elem_of_nil in Hv.
  - change (written (c :: calls) store) with (written calls (write store c)).
    rewrite IH. destruct c as [key value|key]; simpl.
    + destruct (decide (key = k)) as [->|Hne].
      * rewrite lookup_insert_eq. split; [by intros [? _]|].
        intros [_ Hnone]. exfalso. apply (Hnone value). left.
      * rewrite lookup_insert_ne by done. split; intros [Hk Hnone]; (split; [done|]).
        -- intros v [Heq|Hv]%elem_of_cons; [congruence | by apply (Hnone v)].
        -- intros v Hv. apply (Hnone v). by right.
    + split; intros [Hk Hnone]; (split; [done|]).
      * intros v [Heq|Hv]%elem_of_cons; [discriminate | by apply (Hnone v)].
      * intros v Hv. apply (Hnone v). by right.
Qed.

(** What the two stateful repositories hold after a sequence of calls. *)
Lemma CloudRepository_after (calls : list call) :
  ∀ repo : CloudRepository,
    _data_store (after calls repo) = written calls (_data_store repo)
    ∧ slept (after calls repo) = slept repo + 10 * Z.of_nat (length calls).
Proof.
  induction calls as [|c calls IH]; intros repo.
  - unfold after. simpl. split; [reflexivity | lia].
  - rewrite after_cons. destruct (IH (perform c repo).1) as [-> ->].
    rewrite length_cons, Nat2Z.inj_succ.
    destruct c as [key value|key]; (split; [reflexivity | simpl; lia]).
Qed.

Lemma FakeRepo_after (calls : list call) :
  ∀ repo : FakeRepo, _data (after calls repo) = written calls (_data repo).
Proof.
  induction calls as [|c calls IH]; intros repo; [reflexivity|].
  rewrite after_cons, IH. by destruct c.
Qed.

Lemma getitem_found (store : gmap string string) (k v : string) :
  getitem store k = Ok (PyStr v) ↔ store !! k = Some v.
Proof. unfold getitem. destruct (store !! k); split; congruence. Qed.

Lemma getitem_raises (store : gmap string string) (k : string) (e : exn) :
  getitem store k = Raise e ↔ store !! k = None ∧ e = KeyError k.
Proof.
  unfold getitem. destruct (store !! k); split;
    [discriminate | intros [? _]; discriminate | intros [= <-]; done
    | intros [_ ->]; done].
Qed.

End written_facts.

Lemma written_replicate (n : nat) (k v : string) (store : gmap string string) :
  written (replicate (S n) (Create k v)) store = <[k := v]> store.
Proof.
  revert store. induction n as [|n IH]; intros store; [reflexivity|].
  change (written (replicate (S (S n)) (Create k v)) store)
    with (written (replicate (S n) (Create k v)) (<[k := v]> store)).
  rewrite IH. apply insert_insert_eq.
Qed.

(** C3. On a [CloudRepository] and on a [FakeRepo], after any calls whose
    last [create] for key [k] is [create(k, v)], [read(k)] returns [v];
    and [create(k, v)] made several times in a row leaves the stored
    mapping as one [create(k, v)] leaves it. *)
Theorem create_then_read (before later : list call) (k v : string) :
  (∀ v', Create k v' ∉ later) →
  (read k (after (before ++ Create k v :: later) CloudRepository_init)).2
    = Ok (PyStr v)
  ∧ (read k (after (before ++ Create k v :: later) FakeRepo_init)).2
    = Ok (PyStr v)
  ∧ ∀ n : nat,
      _data_store (after (before ++ replicate (S n) (Create k v)) CloudRepository_init)
      = _data_store (after (before ++ [Create k v]) CloudRepository_init)
      ∧ _data (after (before ++ replicate (S n) (Create k v)) FakeRepo_init)
        = _data (after (before ++ [Create k v]) FakeRepo_init).
Proof.
  intros Hnone. split; [|split].
  - simpl. apply getitem_found.
    destruct (CloudRepository_after (before ++ Create k v :: later)
                CloudRepository_init) as [-> _].
    by apply written_last_create.
  - simpl. apply getitem_found. rewrite FakeRepo_after.
    by apply written_last_create.
  - intros n. split.
    + destruct (CloudRepository_after (before ++ replicate (S n) (Create k v))
                  CloudRepository_init) as [-> _].
      destruct (CloudRepository_after (before ++ [Create k v])
                  CloudRepository_init) as [-> _].
      by rewrite !written_app, written_replicate.
    + rewrite !FakeRepo_after. by rewrite !written_app, written_replicate.
Qed.

Lemma create_then_read_witness :
  (read "a" (after ([Create "a" "0"; Read "b"] ++ Create "a" "1"
                      :: [Create "b" "2"; Read "a"]) CloudRepository_init)).2
    = Ok (PyStr "1")
  ∧ (read "a" (after ([Create "a" "0"; Read "b"] ++ Create "a" "1"
                        :: [Create "b" "2"; Read "a"]) FakeRepo_init)).2
    = Ok (PyStr "1").
Proof.
  destruct (create_then_read [Create "a" "0"; Read "b"]
              [Create "b" "2"; Read "a"] "a" "1") as (Hcloud & Hfake & _).
  - intros v' Hin. rewrite !elem_of_cons, elem_of_nil in Hin.
    destruct Hin as [Heq|[Heq|[]]]; discriminate Heq.
  - split; [exact Hcloud | exact Hfake].
Defined.

Section simulation.

(** A [FakeRepo] and a [CloudRepository] that hold the same mapping
    answer one call alike and hold the same mapping afterwards. *)
Lemma perform_alike (c : call) (fake : FakeRepo) (cloud : CloudRepository) :
  _data fake = _data_store cloud →
  (perform c fake).2 = (perform c cloud).2
  ∧ _data (perform c fake).1 = _data_store (perform c cloud).1.
Proof. intros Hsame. destruct c as [key value|key]; simpl; by rewrite Hsame. Qed.

Lemma outcomes_alike (calls : list call) :
  ∀ (fake : FakeRepo) (cloud : CloudRepository),
    _data fake = _data_store cloud →
    outcomes calls fake = outcomes calls cloud.
Proof.
  induction calls as [|c calls IH]; intros fake cloud Hsame; [reflexivity|].
  rewrite !outcomes_cons.
  destruct (perform_alike c fake cloud Hsame) as [-> Hsame'].
  f_equal. by apply IH.
Qed.

End simulation.

(** C4. From empty stores, a [FakeRepo] and a [CloudRepository] given
    the same calls return and raise the same, call by call, and end
    with the same mapping; the [CloudRepository] has slept ten seconds
    per call. *)
Theorem FakeRepo_equivalent_to_CloudRepository (calls : list call) :
  outcomes calls FakeRepo_init = outcomes calls CloudRepository_init
  ∧ _data (after calls FakeRepo_init) = _data_store (after calls CloudRepository_init)
  ∧ slept (after calls CloudRepository_init) = 10 * Z.of_nat (length calls).
Proof.
  split; [|split].
  - by apply outcomes_alike.
  - rewrite FakeRepo_after.
    by destruct (CloudRepository_after calls CloudRepository_init) as [-> _].
  - destruct (CloudRepository_after calls CloudRepository_init) as [_ ->].
    simpl. lia.
Qed.

(** ** The stub *)

Lemma sum_numbers_StubRepo (keys : list string) :
  ∀ (repo : StubRepo) (total : Z),
    sum_numbers repo keys total = (repo, Ok (total + 2 * Z.of_nat (length keys))).
Proof.
  induction keys as [|key keys IH]; intros repo total.
  - simpl. do 2 f_equal. lia.
  - rewrite length_cons, Nat2Z.inj_succ.
    change (sum_numbers repo (key :: keys) total)
      with (sum_numbers repo keys (total + 2)).
    rewrite IH. do 2 f_equal. lia.
Qed.

(** C5. On a [StubRepo], whatever calls were made before, [read(k)]
    returns ["2"] for every key and raises nothing, and [create(k, v)]
    returns [None] and leaves the instance as it was;
    [read_parse_sum_data(stub_repo, ["1", "2", "3"])] returns 6, and on
    any keys it returns twice their number. *)
Theorem StubRepo_reads_constant (calls : list call) (k v : string) (keys : list string) :
  read k (after calls StubRepo_init) = (after calls StubRepo_init, Ok (PyStr "2"))
  ∧ create k v (after calls StubRepo_init) = (after calls StubRepo_init, Ok PyNone)
  ∧ after calls StubRepo_init = StubRepo_init
  ∧ read_parse_sum_data StubRepo_init ["1"; "2"; "3"]%string = (StubRepo_init, Ok 6)
  ∧ read_parse_sum_data (after calls StubRepo_init) keys
    = (after calls StubRepo_init, Ok (2 * Z.of_nat (length keys))).
Proof.
  repeat split.
  - by destruct (after calls StubRepo_init).
  - unfold read_parse_sum_data. by rewrite sum_numbers_StubRepo.
Qed.

(** ** The mock *)

Lemma MockRepo_after (calls : list call) :
  ∀ repo : MockRepo,
    create_call_count (after calls repo)
      = create_call_count repo + Z.of_nat (length (create_args calls))
    ∧ create_call_args (after calls repo) = create_call_args repo ++ create_args calls
    ∧ read_call_count (after calls repo)
      = read_call_count repo + Z.of_nat (length (read_args calls))
    ∧ read_call_args (after calls repo) = read_call_args repo ++ read_args calls.
Proof.
  induction calls as [|c calls IH]; intros repo.
  - unfold after. simpl. rewrite !app_nil_r. repeat split; lia.
  - rewrite after_cons.
    destruct (IH (perform c repo).1) as (-> & -> & -> & ->).
    destruct c as [key value|key]; simpl; rewrite <- ?app_assoc; simpl;
      repeat split; lia.
Qed.

(** C6. On a [MockRepo], after any sequence of calls,
    [create_call_count] is the number of [create] calls,
    [read_call_count] the number of [read] calls, [create_call_args] the
    (key, value) pairs of the [create] calls in call order and
    [read_call_args] the keys of the [read] calls in call order. *)
Theorem MockRepo_records_calls (calls : list call) :
  create_call_count (after calls MockRepo_init) = Z.of_nat (length (create_args calls))
  ∧ read_call_count (after calls MockRepo_init) = Z.of_nat (length (read_args calls))
  ∧ create_call_args (after calls MockRepo_init) = create_args calls
  ∧ read_call_args (after calls MockRepo_init) = read_args calls.
Proof.
  destruct (MockRepo_after calls MockRepo_init) as (-> & -> & -> & ->).
  simpl. repeat split; lia.
Qed.

(** ** Lookup errors *)

(** C7. On a [CloudRepository] and on a [FakeRepo], [read(k)] raises
    exactly when no [create] was made for [k] on the instance, and what
    it raises is [KeyError(k)]; on a [DummyRepo] and on a [StubRepo]
    [read] raises nothing for any key. *)
Theorem read_raises_KeyError_iff_never_created (calls : list call) (k : string) :
  ((read k (after calls CloudRepository_init)).2 = Raise (KeyError k)
   ↔ ∀ v, Create k v ∉ calls)
  ∧ (∀ e, (read k (after calls CloudRepository_init)).2 = Raise e → e = KeyError k)
  ∧ ((read k (after calls FakeRepo_init)).2 = Raise (KeyError k)
     ↔ ∀ v, Create k v ∉ calls)
  ∧ (∀ e, (read k (after calls FakeRepo_init)).2 = Raise e → e = KeyError k)
  ∧ (∀ e, (read k (after calls DummyRepo_init)).2 ≠ Raise e)
  ∧ (∀ e, (read k (after calls StubRepo_init)).2 ≠ Raise e).
Proof.
  assert (∀ store : gmap string string,
             store = written calls ∅ →
             (getitem store k = Raise (KeyError k) ↔ ∀ v, Create k v ∉ calls)
             ∧ ∀ e, getitem store k = Raise e → e = KeyError k) as Hstore.
  { intros store ->. split.
    - rewrite getitem_raises, written_absent. rewrite lookup_empty. naive_solver.
    - by intros e [_ ->]%getitem_raises. }
  destruct (CloudRepository_after calls CloudRepository_init) as [Hcloud _].
  pose proof (FakeRepo_after calls FakeRepo_init) as Hfake.
  destruct (Hstore _ Hcloud) as [Hc1 Hc2]. destruct (Hstore _ Hfake) as [Hf1 Hf2].
  repeat split; try done; try apply Hc1; try apply Hf1.
Qed.

(** ** The session hook *)

(** What the body of the hook does to the session it is given. *)
Lemma pytest_sessionstart_exitstatus (session : Session) :
  exitstatus (pytest_sessionstart session)
  = (if exitstatus session =? 5 then 0 else exitstatus session)
  ∧ testsfailed (pytest_sessionstart session) = testsfailed session
  ∧ testscollected (pytest_sessionstart session) = testscollected session.
Proof. unfold pytest_sessionstart. by destruct (exitstatus session =? 5). Qed.

(** C8. The hook is named [pytest_sessionstart], so pytest calls it
    before collection, on a session whose status is still [OK]; the
    status [NO_TESTS_COLLECTED] that pytest sets once the run is over is
    not seen by the hook, and a run that collects no tests exits with 5.
    The same body called when the session finishes would give 0. *)
Theorem no_tests_collected_exits_with_5 :
  wrap_session conftest 0 0 = 5
  ∧ wrap_session {| sessionstart_hook := None;
                    sessionfinish_hook := Some (λ session _, pytest_sessionstart session) |}
                 0 0 = 0.
Proof. split; reflexivity. Qed.

(** ** The update task *)

Section update.
Variable read_text : option string.
Variable yaml_load : string → option (gmap string string).
Variable exit_code : list invocation → invocation → Z.

Abbreviation update_vscode := (update_vscode read_text yaml_load exit_code).
Abbreviation _read_secrets := (_read_secrets read_text yaml_load).

(** The steps before the one that ended the task exited with 0. *)
Ltac earlier_steps :=
  let i := fresh "i" in
  let Hi := fresh "Hi" in
  let Hcommand := fresh "Hcommand" in
  intros i ? Hi Hcommand;
  repeat (destruct i as [|i];
          [simpl in Hcommand; injection Hcommand as <-; by apply Z.eqb_eq|]);
  lia.

(** Without a password nothing is run. *)
Lemma update_vscode_no_password (e : failure) :
  (_read_secrets = Failed e
   ∨ ∃ secrets, _read_secrets = Done secrets
                ∧ secrets !! "password" = None ∧ e = MissingKey "password") →
  update_vscode Context_init = (Context_init, Failed e).
Proof.
  unfold Tasks.update_vscode.
  intros [->|(secrets & -> & Hnone & ->)]; [reflexivity|].
  unfold subscript. by rewrite Hnone.
Qed.

(** With a password, the commands run are the first [n] steps: those
    before the last one run exited with 0, and the last one run either
    exited with 0, and was the fourth, or its exit is the failure of
    the task. *)
Lemma update_vscode_with_password (secrets : gmap string string) (password : string) :
  _read_secrets = Done secrets → secrets !! "password" = Some password →
  ∃ (n : nat) (last : invocation) (result : outcome unit),
    update_vscode Context_init
      = ({| command_cwds := []; history := take (S n) (steps password) |}, result)
    ∧ steps password !! n = Some last
    ∧ (∀ i command, (i < n)%nat → steps password !! i = Some command →
         exit_code (take i (steps password)) command = 0)
    ∧ (let code := exit_code (take n (steps password)) last in
       if code =? 0 then n = 3%nat ∧ result = Done ()
       else result = Failed (UnexpectedExit last code)).
Proof.
  intros Hsecrets Hpassword.
  unfold Tasks.update_vscode, subscript. rewrite Hsecrets, Hpassword.
  unfold bind_action, cd, run, sudo, execute. simpl.
  destruct (exit_code [] (Run [] cmd_clone_repo) =? 0) eqn:H0; simpl.
  2:{ exists 0%nat. do 2 eexists. split; [reflexivity|]. simpl.
      split; [reflexivity|]. split; [intros; lia|]. by rewrite H0. }
  destruct (exit_code [Run [] cmd_clone_repo]
              (Run [repo_path] "echo 'Y' | makepkg -si") =? 0) eqn:H1; simpl.
  2:{ exists 1%nat. do 2 eexists. split; [reflexivity|]. simpl.
      split; [reflexivity|]. split; [earlier_steps | by rewrite H1]. }
  destruct (exit_code [Run [] cmd_clone_repo;
                       Run [repo_path] "echo 'Y' | makepkg -si"]
              (Sudo [repo_path] "pacman -U" password) =? 0) eqn:H2; simpl.
  2:{ exists 2%nat. do 2 eexists. split; [reflexivity|]. simpl.
      split; [reflexivity|]. split; [earlier_steps | by rewrite H2]. }
  destruct (exit_code [Run [] cmd_clone_repo;
                       Run [repo_path] "echo 'Y' | makepkg -si";
                       Sudo [repo_path] "pacman -U" password]
              (Sudo [] "rm -rf ./visual-studio-code-insiders-bin" password) =? 0)
    eqn:H3; simpl.
  all: exists 3%nat; do 2 eexists; (split; [reflexivity|]); simpl.
  all: split; [reflexivity|]; (split; [earlier_steps|]); by rewrite H3.
Qed.

End update.

(** C9. [update_vscode] reads the password first: when the secrets
    cannot be read or hold no password, the task fails with that error
    and runs nothing. With the password, the commands it runs are the
    first steps of clone, build in the cloned directory, privileged
    install with the password, privileged removal with the password,
    each at most once and in that order: every step before the last one
    run exited with 0; when the last one run exited with 0 it was the
    fourth and the task succeeds; otherwise the task fails with the
    [UnexpectedExit] of that step and its exit code, and no later step
    is run. No directory entered with [cd] is left on the context. *)
Theorem update_vscode_runs_steps_in_sequence
    (read_text : option string)
    (yaml_load : string → option (gmap string string))
    (exit_code : list invocation → invocation → Z) :
  (∀ e,
     (_read_secrets read_text yaml_load = Failed e
      ∨ ∃ secrets, _read_secrets read_text yaml_load = Done secrets
                   ∧ secrets !! "password" = None ∧ e = MissingKey "password") →
     update_vscode read_text yaml_load exit_code Context_init
     = (Context_init, Failed e))
  ∧ (∀ secrets password,
       _read_secrets read_text yaml_load = Done secrets →
       secrets !! "password" = Some password →
       ∃ (n : nat) (last : invocation) (result : outcome unit),
         update_vscode read_text yaml_load exit_code Context_init
           = ({| command_cwds := []; history := take (S n) (steps password) |}, result)
         ∧ steps password !! n = Some last
         ∧ (∀ i command, (i < n)%nat → steps password !! i = Some command →
              exit_code (take i (steps password)) command = 0)
         ∧ (let code := exit_code (take n (steps password)) last in
            if code =? 0 then n = 3%nat ∧ result = Done ()
            else result = Failed (UnexpectedExit last code))).
Proof.
  split.
  - apply update_vscode_no_password.
  - apply update_vscode_with_password.
Qed.

Lemma update_vscode_runs_steps_in_sequence_witness :
  ∃ (n : nat) (last : invocation) (result : outcome unit),
    update_vscode (Some "password: hunter2")
                  (λ _, Some {[ "password" := "hunter2" ]}) install_fails Context_init
      = ({| command_cwds := []; history := take (S n) (steps "hunter2") |}, result)
    ∧ steps "hunter2" !! n = Some last
    ∧ (∀ i command, (i < n)%nat → steps "hunter2" !! i = Some command →
         install_fails (take i (steps "hunter2")) command = 0)
    ∧ (let code := install_fails (take n (steps "hunter2")) last in
       if code =? 0 then n = 3%nat ∧ result = Done ()
       else result = Failed (UnexpectedExit last code)).
Proof.
  apply (proj2 (update_vscode_runs_steps_in_sequence
                  (Some "password: hunter2")
                  (λ _, Some {[ "password" := "hunter2" ]}) install_fails)
           {[ "password" := "hunter2" ]} "hunter2").
  - reflexivity.
  - reflexivity.
Defined.

Example update_vscode_install_fails :
  update_vscode (Some "password: hunter2")
                (λ _, Some {[ "password" := "hunter2" ]}) install_fails Context_init
  = ({| command_cwds := []; history := take 3 (steps "hunter2") |},
     Failed (UnexpectedExit (Sudo [repo_path] "pacman -U" "hunter2") 1)).
Proof. reflexivity. Qed.

(** * Further properties *)

(** ** [function_under_test] on every input *)

Section outcomes.

Lemma function_under_test_not_all_int (numbers : list value) :
  ¬ Forall is_int numbers → ∃ msg, function_under_test numbers = Raise (TypeError msg).
Proof.
  intros Hnot.
  destruct (first_unhashable numbers)
    as [Hhash|(before & v & rest & -> & Hbefore & Hv)].
  - eexists. by apply function_under_test_hashable.
  - unfold function_under_test.
    rewrite (non_numbers_unhashable _ _ _ Hbefore Hv). simpl. by eexists.
Qed.

Lemma all_int_dec (numbers : list value) :
  Forall is_int numbers ∨ ¬ Forall is_int numbers.
Proof.
  destruct (decide (offending numbers = ∅)) as [Hempty|Hne].
  - left. by apply offending_empty.
  - right. by rewrite <- offending_empty.
Qed.

Lemma integers_iff_int (numbers : list value) :
  Forall integer numbers ↔ Forall is_int numbers.
Proof.
  split; intros Hall; (eapply list.Forall_impl; [exact Hall|]);
    intros v; apply integer_is_int.
Qed.

Lemma as_number_int_value (v : value) (z : Z) :
  int_value v = Some z → as_number v = z.
Proof. unfold as_number. by intros ->. Qed.

Lemma is_int_as_number (v : value) : is_int v → int_value v = Some (as_number v).
Proof. intros [z Hz]%is_int_value. by rewrite (as_number_int_value _ _ Hz). Qed.

End outcomes.

(** X1. [function_under_test] returns a value exactly on the non-empty
    sequences of integers, raises [ValueError] exactly on the empty
    sequence, and never raises [KeyError]. *)
Theorem function_under_test_outcomes (numbers : list value) :
  ((∃ m, function_under_test numbers = Ok m)
   ↔ numbers ≠ [] ∧ Forall integer numbers)
  ∧ ((∃ msg, function_under_test numbers = Raise (ValueError msg)) ↔ numbers = [])
  ∧ (∀ key, function_under_test numbers ≠ Raise (KeyError key)).
Proof.
  rewrite integers_iff_int.
  destruct (all_int_dec numbers) as [Hall|Hnot].
  - rewrite (function_under_test_all_int _ Hall).
    destruct numbers as [|first rest].
    + simpl. split; [|split].
      * split; [by intros [m Hm] | intros [Hne _]; by destruct Hne].
      * split; [done | by eexists].
      * done.
    + destruct (py_max_ints (first :: rest)) as (m & zm & -> & _); [done..|].
      split; [|split].
      * split; [done | by eexists].
      * split; [by intros [msg Hmsg] | done].
      * done.
  - destruct (function_under_test_not_all_int _ Hnot) as [msg ->].
    split; [|split].
    + split; [by intros [m Hm] | by intros [_ Hall]].
    + split; [by intros [msg' Hmsg] |].
      intros ->. exfalso. apply Hnot. constructor.
    + done.
Qed.

(** ** Which of several equal maxima is returned *)

Section ties.

Lemma py_gt_as_number (a b : value) :
  is_int a → is_int b → py_gt a b = Ok (as_number b <? as_number a).
Proof.
  intros Ha%is_int_as_number Hb%is_int_as_number. by apply py_gt_ints.
Qed.

(** Items that do not exceed the running maximum leave it in place. *)
Lemma max_loop_keeps (items : list value) (maxitem : value) :
  is_int maxitem → Forall is_int items →
  (∀ x, x ∈ items → as_number x ≤ as_number maxitem) →
  max_loop items maxitem = Ok maxitem.
Proof.
  intros Hmax Hall. revert maxitem Hmax.
  induction Hall as [|item rest Hitem _ IH]; intros maxitem Hmax Hle; [reflexivity|].
  simpl. rewrite (py_gt_as_number _ _ Hitem Hmax). simpl.
  assert (as_number item ≤ as_number maxitem) as Hitem_le by (apply Hle; left).
  destruct (Z.ltb_spec (as_number maxitem) (as_number item)); [lia|].
  apply IH; [done|]. intros x Hx. apply Hle. by right.
Qed.

(** Items below [m] leave a running maximum below [m]. *)
Lemma max_loop_below (items : list value) (m : value) :
  Forall is_int items → (∀ x, x ∈ items → as_number x < as_number m) →
  ∀ maxitem, is_int maxitem → as_number maxitem < as_number m →
  ∃ r, max_loop items maxitem = Ok r ∧ is_int r ∧ as_number r < as_number m.
Proof.
  induction 1 as [|item rest Hitem _ IH]; intros Hlt maxitem Hmax Hmax_lt.
  - by exists maxitem.
  - simpl. rewrite (py_gt_as_number _ _ Hitem Hmax). simpl.
    assert (as_number item < as_number m) as Hitem_lt by (apply Hlt; left).
    assert (∀ x, x ∈ rest → as_number x < as_number m) as Hrest.
    { intros x Hx. apply Hlt. by right. }
    destruct (as_number maxitem <? as_number item); by apply IH.
Qed.

Lemma max_loop_app (xs ys : list value) (maxitem : value) :
  max_loop (xs ++ ys) maxitem
  = bind_result (max_loop xs maxitem) (max_loop ys).
Proof.
  revert maxitem. induction xs as [|x xs IH]; intros maxitem; [reflexivity|].
  simpl. destruct (py_gt x maxitem) as [greater|e]; simpl; [apply IH | reflexivity].
Qed.

Lemma py_max_first_maximum (before : list value) (m : value) (later : list value) :
  Forall is_int (before ++ m :: later) →
  (∀ x, x ∈ before → as_number x < as_number m) →
  (∀ x, x ∈ later → as_number x ≤ as_number m) →
  py_max (before ++ m :: later) = Ok m.
Proof.
  intros Hall Hbefore Hlater.
  apply Forall_app in Hall as [Hb Hml].
  apply list.Forall_cons in Hml as [Hm Hl].
  destruct before as [|first before]; simpl.
  - by apply max_loop_keeps.
  - apply list.Forall_cons in Hb as [Hfirst Hb].
    rewrite max_loop_app.
    destruct (max_loop_below before m Hb) with (maxitem := first)
      as (r & -> & Hr & Hr_lt).
    + intros x Hx. apply Hbefore. by right.
    + done.
    + apply Hbefore. left.
    + simpl. rewrite (py_gt_as_number _ _ Hm Hr). simpl.
      destruct (Z.ltb_spec (as_number r) (as_number m)); [|lia].
      by apply max_loop_keeps.
Qed.

End ties.

(** X2. Of several elements that count as the maximum,
    [function_under_test] returns the first: an element that every
    earlier element is below and no later element exceeds is the one
    returned (of [True] and [1], whichever comes first). *)
Theorem function_under_test_first_maximum
    (before : list value) (m : value) (later : list value) :
  Forall integer (before ++ m :: later) →
  (∀ x, x ∈ before → as_number x < as_number m) →
  (∀ x, x ∈ later → as_number x ≤ as_number m) →
  function_under_test (before ++ m :: later) = Ok m.
Proof.
  intros Hall%integers_iff_int Hbefore Hlater.
  rewrite (function_under_test_all_int _ Hall).
  by apply py_max_first_maximum.
Qed.

Lemma function_under_test_first_maximum_witness :
  function_under_test ([PyBool false] ++ PyBool true :: [PyInt 1; PyInt (-3)])
  = Ok (PyBool true).
Proof.
  apply (function_under_test_first_maximum
           [PyBool false] (PyBool true) [PyInt 1; PyInt (-3)]).
  - repeat apply Forall_cons_2; [right | right | left | left | apply Forall_nil_2];
      by eexists.
  - intros x Hx. apply list_elem_of_singleton in Hx as ->. reflexivity.
  - intros x Hx. rewrite !elem_of_cons, elem_of_nil in Hx.
    destruct Hx as [->|[->|[]]]; discriminate.
Defined.

(** X3. On plain integers [function_under_test] returns the greatest of
    them. *)
Theorem function_under_test_plain_integers (z : Z) (zs : list Z) :
  function_under_test (PyInt <$> z :: zs) = Ok (PyInt (foldl Z.max z zs)).
Proof.
  rewrite function_under_test_all_int.
  - simpl. revert z. induction zs as [|x zs IH]; intros z; [reflexivity|].
    simpl. destruct (Z.ltb_spec z x).
    + rewrite IH. do 3 f_equal. lia.
    + rewrite IH. do 3 f_equal. lia.
  - apply Forall_fmap, Forall_true. done.
Qed.

(** ** The order of the elements *)

Section order.

Lemma offending_Permutation (numbers numbers' : list value) :
  numbers ≡ₚ numbers' → offending numbers = offending numbers'.
Proof.
  intros Hperm. apply leibniz_equiv. intros v.
  rewrite !elem_of_offending. by rewrite Hperm.
Qed.


End order.



(** ** [ClassUnderTest] on every input *)

(** X5. The constructor of [ClassUnderTest] accepts exactly the
    sequences of integers, the empty one included, and keeps the
    sequence as given; constructing an instance and calling
    [method_under_test] does on every sequence what
    [function_under_test] does: the same value or the same exception. *)
Theorem ClassUnderTest_as_function_under_test (numbers : list value) :
  ((∃ self, ClassUnderTest_init numbers = Ok self) ↔ Forall integer numbers)
  ∧ (∀ self, ClassUnderTest_init numbers = Ok self → _numbers_sequence self = numbers)
  ∧ bind_result (ClassUnderTest_init numbers) method_under_test
    = function_under_test numbers.
Proof.
  rewrite integers_iff_int.
  unfold ClassUnderTest_init, _construction_guard_clause, function_under_test,
    method_under_test.
  destruct (non_numbers_in_sequence numbers ∅) as [found|e] eqn:Hfound; simpl.
  - apply non_numbers_returns in Hfound. rewrite union_empty_l_L in Hfound.
    subst found. destruct (decide (offending numbers = ∅)) as [Hempty|Hne]; simpl.
    + split; [|split].
      * split; [intros _; by apply offending_empty | by eexists].
      * by intros self [= <-].
      * reflexivity.
    + split; [|split].
      * split; [by intros [self Hself] | by intros Hall%offending_empty].
      * done.
      * reflexivity.
  - split; [|split].
    + split; [by intros [self Hself]|].
      intros Hall. by rewrite (non_numbers_all_int _ _ Hall) in Hfound.
    + done.
    + reflexivity.
Qed.

(** ** One [create] on a stateful repository *)

(** X6. On a [CloudRepository] and on a [FakeRepo] in any state,
    [create(k, v)] makes [read(k)] return [v], whatever [k] held before,
    and leaves what [read] does on every other key as it was. *)
Theorem create_changes_one_key
    (cloud : CloudRepository) (fake : FakeRepo) (k v k' : string) :
  k ≠ k' →
  (read k (create k v cloud).1).2 = Ok (PyStr v)
  ∧ (read k' (create k v cloud).1).2 = (read k' cloud).2
  ∧ (read k (create k v fake).1).2 = Ok (PyStr v)
  ∧ (read k' (create k v fake).1).2 = (read k' fake).2.
Proof.
  intros Hne. simpl. unfold getitem.
  by rewrite !lookup_insert_eq, !lookup_insert_ne by done.
Qed.

Lemma create_changes_one_key_witness :
  (read "a" (create "a" "1" (after [Create "a" "0"; Create "b" "5"]
                               CloudRepository_init)).1).2 = Ok (PyStr "1")
  ∧ (read "b" (create "a" "1" (after [Create "a" "0"; Create "b" "5"]
                                 CloudRepository_init)).1).2
    = (read "b" (after [Create "a" "0"; Create "b" "5"] CloudRepository_init)).2
  ∧ (read "a" (create "a" "1" FakeRepo_init).1).2 = Ok (PyStr "1")
  ∧ (read "b" (create "a" "1" FakeRepo_init).1).2 = (read "b" FakeRepo_init).2.
Proof.
  apply (create_changes_one_key
           (after [Create "a" "0"; Create "b" "5"] CloudRepository_init)
           FakeRepo_init "a" "1" "b").
  discriminate.
Defined.

(** ** The keys a stateful repository holds *)

Lemma dom_written (calls : list call) :
  ∀ store, dom (written calls store) = dom store ∪ list_to_set (create_args calls).*1.
Proof.
  induction calls as [|c calls IH]; intros store.
  - simpl. set_solver.
  - change (written (c :: calls) store) with (written calls (write store c)).
    rewrite IH. destruct c as [key value|key]; simpl.
    + rewrite dom_insert_L. set_solver.
    + reflexivity.
Qed.

Lemma size_list_to_set_length (keys : list string) :
  (size (list_to_set keys : gset string) ≤ length keys)%nat.
Proof.
  induction keys as [|key keys IH].
  - change (list_to_set [] : gset string) with (∅ : gset string).
    by rewrite size_empty.
  - change (list_to_set (key :: keys) : gset string)
      with ({[key]} ∪ list_to_set keys : gset string).
    rewrite size_union_alt, size_singleton, length_cons.
    assert (size (list_to_set keys ∖ {[key]} : gset string)
            ≤ size (list_to_set keys : gset string))%nat
      by (apply subseteq_size; set_solver).
    lia.
Qed.

(** X7. After any calls from an empty store, the keys a
    [CloudRepository] or a [FakeRepo] holds are exactly the keys of the
    [create] calls, one entry a key: the mapping never has more entries
    than there were [create] calls, and [read] calls add none. *)
Theorem stored_keys_are_created_keys (calls : list call) :
  dom (_data_store (after calls CloudRepository_init))
    = list_to_set (create_args calls).*1
  ∧ dom (_data (after calls FakeRepo_init)) = list_to_set (create_args calls).*1
  ∧ (size (_data_store (after calls CloudRepository_init))
     ≤ length (create_args calls))%nat
  ∧ (size (_data (after calls FakeRepo_init)) ≤ length (create_args calls))%nat.
Proof.
  destruct (CloudRepository_after calls CloudRepository_init) as [-> _].
  rewrite FakeRepo_after. simpl.
  assert (dom (written calls ∅) = list_to_set (create_args calls).*1) as Hdom.
  { rewrite dom_written, dom_empty_L. set_solver. }
  assert (size (written calls ∅) ≤ length (create_args calls))%nat as Hsize.
  { rewrite <- size_dom, Hdom.
    etrans; [apply size_list_to_set_length|]. by rewrite length_fmap. }
  done.
Qed.

(** ** [read_parse_sum_data] on the stateful repositories *)

Section sums.

Lemma sum_numbers_FakeRepo_good (keys : list string) (fake : FakeRepo) :
  Forall (λ key, is_Some (stored_number (_data fake) key)) keys →
  ∀ rest total,
    sum_numbers fake (keys ++ rest) total
    = sum_numbers fake rest
        (total + sum_Z ((λ key, default 0 (stored_number (_data fake) key)) <$> keys)).
Proof.
  induction 1 as [|key keys [n Hn] _ IH]; intros rest total.
  - simpl. f_equal. lia.
  - rewrite fmap_cons. cbn [sum_Z foldr]. fold (sum_Z).
    rewrite Hn. cbn [default]. unfold stored_number in Hn.
    cbn [app sum_numbers read FakeRepo_protocol]. unfold getitem.
    destruct (_data fake !! key) as [v|]; [|discriminate].
    cbn [mbind option_bind] in Hn. cbn [bind_result py_int].
    destruct (int_of_str v) as [number|e]; [|discriminate].
    injection Hn as ->. rewrite IH. f_equal. unfold sum_Z, id. lia.
Qed.

Lemma int_of_str_raises_ValueError (text : string) (e : exn) :
  int_of_str text = Raise e → ∃ msg, e = ValueError msg.
Proof.
  unfold int_of_str. destruct (decimal_literal text) as [[z digits]|].
  - destruct (int_max_str_digits <? digits)%nat; [|discriminate].
    intros [= <-]. by eexists.
  - intros [= <-]. by eexists.
Qed.

(** A [CloudRepository] sums as a [FakeRepo] with the same mapping does,
    and keeps its mapping. *)
Lemma sum_numbers_CloudRepository (keys : list string) :
  ∀ (cloud : CloudRepository) (fake : FakeRepo) (total : Z),
    _data fake = _data_store cloud →
    (sum_numbers cloud keys total).2 = (sum_numbers fake keys total).2
    ∧ _data_store (sum_numbers cloud keys total).1 = _data_store cloud
    ∧ slept cloud ≤ slept (sum_numbers cloud keys total).1
      ≤ slept cloud + 10 * Z.of_nat (length keys)
    ∧ (∀ sum, (sum_numbers cloud keys total).2 = Ok sum →
         slept (sum_numbers cloud keys total).1
         = slept cloud + 10 * Z.of_nat (length keys)).
Proof.
  induction keys as [|key keys IH]; intros cloud fake total Hsame.
  - simpl. repeat split; lia.
  - rewrite length_cons, Nat2Z.inj_succ. simpl. rewrite Hsame.
    destruct (bind_result (getitem (_data_store cloud) key) py_int) as [number|e].
    + destruct (IH (_cloud_operation cloud) fake (total + number) Hsame)
        as (-> & -> & Hslept & Hsum).
      simpl in *. repeat split; try lia.
      intros sum Hok. rewrite (Hsum _ Hok). lia.
    + simpl. repeat split; try lia. discriminate.
Qed.

End sums.

(** X8. On a [FakeRepo], [read_parse_sum_data] returns the sum of the
    numbers stored under the keys when every key has an entry on which
    [int] returns; otherwise it stops at the first key that has not:
    with [KeyError] of that key when the key has no entry, with the
    [ValueError] that [int] raises on the entry when it raises. The
    repository is left as it was. *)
Theorem read_parse_sum_data_FakeRepo
    (fake : FakeRepo) (before : list string) (key : string) (rest : list string) :
  Forall (λ key, is_Some (stored_number (_data fake) key)) before →
  read_parse_sum_data fake before
    = (fake, Ok (sum_Z ((λ key, default 0 (stored_number (_data fake) key)) <$> before)))
  ∧ (_data fake !! key = None →
     read_parse_sum_data fake (before ++ key :: rest) = (fake, Raise (KeyError key)))
  ∧ (∀ text e, _data fake !! key = Some text → int_of_str text = Raise e →
     read_parse_sum_data fake (before ++ key :: rest) = (fake, Raise e)
     ∧ ∃ msg, e = ValueError msg).
Proof.
  intros Hgood. unfold read_parse_sum_data. split; [|split].
  - rewrite <- (app_nil_r before) at 1.
    by rewrite (sum_numbers_FakeRepo_good _ _ Hgood).
  - intros Hnone. rewrite (sum_numbers_FakeRepo_good _ _ Hgood).
    simpl. unfold getitem. by rewrite Hnone.
  - intros text e Htext Hbad. split; [|by apply (int_of_str_raises_ValueError text)].
    rewrite (sum_numbers_FakeRepo_good _ _ Hgood).
    cbn [sum_numbers read FakeRepo_protocol]. unfold getitem. rewrite Htext.
    cbn [bind_result py_int]. by rewrite Hbad.
Qed.

Lemma read_parse_sum_data_FakeRepo_witness :
  read_parse_sum_data (after [Create "a" "40"; Create "b" " -2 "; Create "c" "x"]
                         FakeRepo_init) ["a"; "b"; "a"]%string
    = (after [Create "a" "40"; Create "b" " -2 "; Create "c" "x"] FakeRepo_init,
       Ok 78)
  ∧ read_parse_sum_data (after [Create "a" "40"; Create "b" " -2 "; Create "c" "x"]
                           FakeRepo_init) (["a"; "b"; "a"]%string ++ "d"%string :: ["a"]%string)
    = (after [Create "a" "40"; Create "b" " -2 "; Create "c" "x"] FakeRepo_init,
       Raise (KeyError "d"))
  ∧ read_parse_sum_data (after [Create "a" "40"; Create "b" " -2 "; Create "c" "x"]
                           FakeRepo_init) (["a"; "b"; "a"]%string ++ "c"%string :: ["a"]%string)
    = (after [Create "a" "40"; Create "b" " -2 "; Create "c" "x"] FakeRepo_init,
       Raise (ValueError (InvalidLiteral "x"))).
Proof.
  pose proof (read_parse_sum_data_FakeRepo
                (after [Create "a" "40"; Create "b" " -2 "; Create "c" "x"]
                   FakeRepo_init) ["a"; "b"; "a"]%string) as Hsum.
  assert (Forall (λ key, is_Some (stored_number
            (_data (after [Create "a" "40"; Create "b" " -2 "; Create "c" "x"]
                      FakeRepo_init)) key)) ["a"; "b"; "a"]%string) as Hgood.
  { repeat apply Forall_cons_2; [..|apply Forall_nil_2]; by eexists. }
  split; [|split].
  - apply (proj1 (Hsum "d" [] Hgood)).
  - apply (proj1 (proj2 (Hsum "d" ["a"]%string Hgood))). reflexivity.
  - apply (proj1 (proj2 (proj2 (Hsum "c" ["a"]%string Hgood)) "x"
                    (ValueError (InvalidLiteral "x")) eq_refl eq_refl)).
Defined.

(** The separators 28 to 31 are not whitespace to [int]: an entry that
    starts with one is not the text of a number. *)
Example read_parse_sum_data_separator :
  read_parse_sum_data {| _data := {[ "k" := String (ascii_of_nat 28) "5" ]} |}
                      ["k"]%string
  = ({| _data := {[ "k" := String (ascii_of_nat 28) "5" ]} |},
     Raise (ValueError (InvalidLiteral (String (ascii_of_nat 28) "5")))).
Proof. reflexivity. Qed.

(** X9. On a [CloudRepository], [read_parse_sum_data] returns or raises
    what it does on a [FakeRepo] that holds the same mapping, and
    leaves the mapping as it was; it sleeps ten seconds for each key it
    reads: at most ten seconds a key, and exactly that when it returns
    a sum. *)
Theorem read_parse_sum_data_CloudRepository
    (cloud : CloudRepository) (fake : FakeRepo) (keys : list string) :
  _data fake = _data_store cloud →
  (read_parse_sum_data cloud keys).2 = (read_parse_sum_data fake keys).2
  ∧ _data_store (read_parse_sum_data cloud keys).1 = _data_store cloud
  ∧ slept cloud ≤ slept (read_parse_sum_data cloud keys).1
    ≤ slept cloud + 10 * Z.of_nat (length keys)
  ∧ (∀ sum, (read_parse_sum_data cloud keys).2 = Ok sum →
       slept (read_parse_sum_data cloud keys).1
       = slept cloud + 10 * Z.of_nat (length keys)).
Proof. apply sum_numbers_CloudRepository. Qed.

Lemma read_parse_sum_data_CloudRepository_witness :
  (read_parse_sum_data (after [Create "a" "40"] CloudRepository_init)
     ["a"; "zz"; "a"]%string).2
  = (read_parse_sum_data (after [Create "a" "40"] FakeRepo_init)
       ["a"; "zz"; "a"]%string).2.
Proof.
  apply (read_parse_sum_data_CloudRepository
           (after [Create "a" "40"] CloudRepository_init)
           (after [Create "a" "40"] FakeRepo_init) ["a"; "zz"; "a"]%string).
  reflexivity.
Defined.

(** ** [int] reads what [str] writes *)

Section decimal.

Lemma pretty_N_char_cases (P : ascii → Prop) :
  P "0"%char → P "1"%char → P "2"%char → P "3"%char → P "4"%char →
  P "5"%char → P "6"%char → P "7"%char → P "8"%char → P "9"%char →
  ∀ d, P (pretty_N_char d).
Proof.
  intros. unfold pretty_N_char. repeat case_match; assumption.
Qed.

Lemma digit_of_pretty_N_char (d : N) :
  (d < 10)%N → digit_of (pretty_N_char d) = Some (Z.of_N d).
Proof.
  intros Hd. rewrite <- (N2Nat.id d).
  assert (N.to_nat d < 10)%nat as Hn by lia. revert Hn.
  generalize (N.to_nat d). intros n Hn.
  do 10 (destruct n as [|n]; [reflexivity|]). lia.
Qed.

Lemma pretty_N_char_not_whitespace (d : N) : is_whitespace (pretty_N_char d) = false.
Proof. apply pretty_N_char_cases; reflexivity. Qed.

(** The digits [str] writes are read back as the number, after whatever
    was read before them, and are counted one by one. *)
Lemma parse_digits_pretty_N_go (x : N) :
  (0 < x)%N →
  ∃ k d, ∀ s acc digits after_digit,
    parse_digits (String.list_ascii_of_string (pretty_N_go x s)) acc digits after_digit
    = parse_digits (String.list_ascii_of_string s) (acc * k + Z.of_N x)
                   (d + digits) true
    ∧ String.length (pretty_N_go x s) = (d + String.length s)%nat.
Proof.
  induction (N.lt_wf_0 x) as [x _ IH]; intros Hx.
  destruct (N.eq_0_gt_0_cases (x `div` 10)) as [Hsmall|Hlarge].
  - exists 10, 1%nat. intros s acc digits after_digit.
    rewrite pretty_N_go_step, Hsmall, pretty_N_go_0 by done.
    cbn [String.list_ascii_of_string parse_digits String.length].
    rewrite digit_of_pretty_N_char by (by apply N.mod_lt).
    split; [|reflexivity].
    f_equal. apply N.div_small_iff in Hsmall; [|done].
    rewrite N.mod_small by done. lia.
  - destruct (IH (x `div` 10)%N) as (k & d & Hk); [by apply N.div_lt | done |].
    exists (10 * k), (S d). intros s acc digits after_digit.
    rewrite pretty_N_go_step by done.
    destruct (Hk (String (pretty_N_char (x `mod` 10)) s) acc digits after_digit)
      as [-> ->].
    cbn [String.list_ascii_of_string parse_digits String.length].
    rewrite digit_of_pretty_N_char by (by apply N.mod_lt).
    split; [|lia].
    f_equal. rewrite (N.div_mod x 10) at 3 by done.
    rewrite N2Z.inj_add, N2Z.inj_mul. simpl. lia.
Qed.

Lemma pretty_N_go_head (x : N) :
  (0 < x)%N → ∀ s, ∃ d rest,
    String.list_ascii_of_string (pretty_N_go x s) = pretty_N_char d :: rest.
Proof.
  induction (N.lt_wf_0 x) as [x _ IH]; intros Hx s.
  rewrite pretty_N_go_step by done.
  destruct (N.eq_0_gt_0_cases (x `div` 10)) as [Hsmall|Hlarge].
  - rewrite Hsmall, pretty_N_go_0. simpl. by eexists _, _.
  - apply IH; [by apply N.div_lt | done].
Qed.

Lemma pretty_N_go_not_whitespace (x : N) :
  ∀ s, Forall (λ c, is_whitespace c = false) (String.list_ascii_of_string s) →
       Forall (λ c, is_whitespace c = false)
              (String.list_ascii_of_string (pretty_N_go x s)).
Proof.
  induction (N.lt_wf_0 x) as [x _ IH]; intros s Hs.
  assert (x = 0 ∨ 0 < x)%N as [->|Hx] by lia; [by rewrite pretty_N_go_0|].
  rewrite pretty_N_go_step by done. apply IH; [by apply N.div_lt|].
  simpl. constructor; [apply pretty_N_char_not_whitespace | done].
Qed.

Lemma lstrip_id (cs : list ascii) :
  Forall (λ c, is_whitespace c = false) cs → lstrip cs = cs.
Proof. intros [|c rest Hc _]; simpl; [done | by rewrite Hc]. Qed.

Lemma strip_id (cs : list ascii) :
  Forall (λ c, is_whitespace c = false) cs → strip cs = cs.
Proof.
  intros Hcs. unfold strip. rewrite (lstrip_id cs Hcs).
  rewrite lstrip_id by by apply Forall_rev. apply rev_involutive.
Qed.

Lemma pretty_pos (p : positive) : pretty (Zpos p) = pretty_N_go (Npos p) "".
Proof.
  unfold pretty, pretty_Z, pretty, pretty_positive, pretty, pretty_N.
  by rewrite decide_False.
Qed.

Lemma pretty_neg (p : positive) :
  pretty (Zneg p) = String "-" (pretty_N_go (Npos p) "").
Proof.
  unfold pretty, pretty_Z, pretty, pretty_positive, pretty, pretty_N.
  by rewrite decide_False.
Qed.

(** The sign that [decimal_literal] looks for is not a digit. *)
Lemma decimal_literal_unsigned (d : N) (rest : list ascii) :
  match pretty_N_char d :: rest with
  | "-"%char :: digits => negated <$> parse_digits digits 0 0 false
  | "+"%char :: digits => parse_digits digits 0 0 false
  | digits => parse_digits digits 0 0 false
  end = parse_digits (pretty_N_char d :: rest) 0 0 false.
Proof.
  apply (pretty_N_char_cases
           (λ c, match c :: rest with
                 | "-"%char :: digits => negated <$> parse_digits digits 0 0 false
                 | "+"%char :: digits => parse_digits digits 0 0 false
                 | digits => parse_digits digits 0 0 false
                 end = parse_digits (c :: rest) 0 0 false)); reflexivity.
Qed.

Lemma parse_digits_positive (p : positive) :
  parse_digits (String.list_ascii_of_string (pretty_N_go (Npos p) "")) 0 0 false
  = Some (Zpos p, String.length (pretty_N_go (Npos p) "")).
Proof.
  destruct (parse_digits_pretty_N_go (Npos p)) as (k & d & Hk); [done|].
  destruct (Hk "" 0 0%nat false) as [-> ->]. reflexivity.
Qed.

(** What [str] writes is a literal of the number, of as many digits as
    [str] counts. *)
Lemma decimal_literal_pretty (z : Z) :
  decimal_literal (pretty z) = Some (z, decimal_digits z).
Proof.
  unfold decimal_digits. destruct z as [|p|p]; [reflexivity | |].
  - change (Z.abs (Z.pos p)) with (Z.pos p).
    rewrite pretty_pos. unfold decimal_literal.
    rewrite strip_id by (apply pretty_N_go_not_whitespace; constructor).
    destruct (pretty_N_go_head (Npos p)) with (s := "") as (d & rest & Hhead); [done|].
    rewrite Hhead, decimal_literal_unsigned, <- Hhead. apply parse_digits_positive.
  - change (Z.abs (Z.neg p)) with (Z.pos p).
    rewrite pretty_pos, pretty_neg. unfold decimal_literal.
    change (String.list_ascii_of_string (String "-" ?s))
      with ("-"%char :: String.list_ascii_of_string s).
    rewrite strip_id.
    + by rewrite parse_digits_positive.
    + constructor; [reflexivity|].
      apply pretty_N_go_not_whitespace. constructor.
Qed.

(** [int] returns the number on the text [str] returned for it. *)
Lemma int_of_str_py_str (z : Z) (text : string) :
  py_str z = Ok text → int_of_str text = Ok z.
Proof.
  unfold py_str, int_of_str.
  destruct (int_max_str_digits <? decimal_digits z)%nat eqn:Hlimit; [discriminate|].
  intros [= <-]. by rewrite decimal_literal_pretty, Hlimit.
Qed.

(** [str] returns on the integers of at most [int_max_str_digits]
    digits, and raises [ValueError] on the others. *)
Lemma py_str_returns (z : Z) :
  (decimal_digits z ≤ int_max_str_digits)%nat → py_str z = Ok (pretty z).
Proof.
  intros Hle. unfold py_str.
  by destruct (Nat.ltb_spec int_max_str_digits (decimal_digits z)); [lia|].
Qed.

Lemma py_str_raises (z : Z) (e : exn) :
  py_str z = Raise e
  → (int_max_str_digits < decimal_digits z)%nat ∧ ∃ msg, e = ValueError msg.
Proof.
  unfold py_str.
  destruct (Nat.ltb_spec int_max_str_digits (decimal_digits z)); [|discriminate].
  intros [= <-]. split; [done | by eexists].
Qed.

(** The number of digits [str] writes for [x] is the one that places
    [x] between two powers of ten. *)
Lemma pretty_N_go_length (x : N) :
  (0 < x)%N →
  ∃ d : nat,
    (∀ s, String.length (pretty_N_go x s) = (S d + String.length s)%nat)
    ∧ 10 ^ Z.of_nat d ≤ Z.of_N x < 10 ^ Z.of_nat (S d).
Proof.
  induction (N.lt_wf_0 x) as [x _ IH]; intros Hx.
  pose proof (N.div_mod x 10 ltac:(done)) as Hdiv.
  pose proof (N.mod_lt x 10 ltac:(done)) as Hmod.
  destruct (N.eq_0_gt_0_cases (x `div` 10)) as [Hsmall|Hlarge].
  - exists 0%nat. split.
    + intros s. by rewrite pretty_N_go_step, Hsmall, pretty_N_go_0.
    + change (10 ^ Z.of_nat 0) with 1. change (10 ^ Z.of_nat 1) with 10.
      rewrite Hsmall in Hdiv. revert Hdiv Hmod. generalize (x `mod` 10)%N. lia.
  - destruct (IH (x `div` 10)%N) as (d & Hlength & Hbounds);
      [by apply N.div_lt | done |].
    exists (S d). split.
    + intros s. rewrite pretty_N_go_step, Hlength by done. simpl. lia.
    + rewrite !Nat2Z.inj_succ, !Z.pow_succ_r in * by lia.
      revert Hdiv Hmod Hbounds.
      generalize (x `mod` 10)%N (x `div` 10)%N (10 ^ Z.of_nat d). lia.
Qed.

Lemma decimal_digits_le (z : Z) (n : nat) :
  (0 < n)%nat → (decimal_digits z ≤ n)%nat ↔ Z.abs z < 10 ^ Z.of_nat n.
Proof.
  intros Hn.
  assert (∀ p, (String.length (pretty (Z.pos p)) ≤ n)%nat
               ↔ Z.pos p < 10 ^ Z.of_nat n) as Hpos.
  { intros p. rewrite pretty_pos.
    destruct (pretty_N_go_length (Npos p)) as (d & Hlength & Hlow & Hhigh); [done|].
    rewrite Hlength. simpl String.length. rewrite Nat.add_0_r.
    change (Z.of_N (N.pos p)) with (Z.pos p) in *. split.
    - intros Hle. eapply Z.lt_le_trans; [exact Hhigh|].
      apply Z.pow_le_mono_r; lia.
    - intros Hlt. apply Nat.le_ngt. intros Hgt.
      assert (10 ^ Z.of_nat n ≤ 10 ^ Z.of_nat d) by (apply Z.pow_le_mono_r; lia).
      lia. }
  unfold decimal_digits. destruct z as [|p|p].
  - change (String.length (pretty (Z.abs 0))) with 1%nat.
    pose proof (Z.pow_pos_nonneg 10 (Z.of_nat n)). simpl Z.abs. split; lia.
  - apply Hpos.
  - apply Hpos.
Qed.

(** [str] returns exactly on the integers below [10 ^ 4300] in absolute
    value. *)
Lemma py_str_returns_iff (z : Z) :
  (∃ text, py_str z = Ok text) ↔ Z.abs z < 10 ^ Z.of_nat int_max_str_digits.
Proof.
  rewrite <- decimal_digits_le by (unfold int_max_str_digits; lia).
  unfold py_str.
  destruct (Nat.ltb_spec int_max_str_digits (decimal_digits z)).
  - split; [by intros [text Htext] | lia].
  - split; [done | by eexists].
Qed.

End decimal.

(** ** [load_many_values_sum_and_create_new_entry] *)

(** X10. On a [FakeRepo] on whose entries under the keys [int] returns,
    [load_many_values_sum_and_create_new_entry] does one of two things.
    When the sum of the numbers has no more digits than [str] converts,
    it returns [None] and changes the mapping only under ["total"],
    where [get_and_parse_value] then reads back the sum. When the sum
    has more digits, it raises the [ValueError] of [str] and leaves the
    repository as it was. When a key has no entry, it raises [KeyError]
    of the first such key and creates nothing. *)
Theorem load_many_values_then_get_and_parse_value
    (fake : FakeRepo) (keys : list string) (key : string) (rest : list string) :
  Forall (λ key, is_Some (stored_number (_data fake) key)) keys →
  ((decimal_digits (stored_sum (_data fake) keys) ≤ int_max_str_digits)%nat →
   (load_many_values_sum_and_create_new_entry fake keys).2 = Ok PyNone
   ∧ (∀ other, other ≠ "total" →
        _data (load_many_values_sum_and_create_new_entry fake keys).1 !! other
        = _data fake !! other)
   ∧ (get_and_parse_value
        (load_many_values_sum_and_create_new_entry fake keys).1 "total").2
     = Ok (stored_sum (_data fake) keys))
  ∧ ((int_max_str_digits < decimal_digits (stored_sum (_data fake) keys))%nat →
     ∃ msg, load_many_values_sum_and_create_new_entry fake keys
            = (fake, Raise (ValueError msg)))
  ∧ (_data fake !! key = None →
     load_many_values_sum_and_create_new_entry fake (keys ++ key :: rest)
     = (fake, Raise (KeyError key))).
Proof.
  intros Hgood.
  pose proof (sum_numbers_FakeRepo_good keys fake Hgood [] 0) as Hsum.
  rewrite app_nil_r in Hsum. cbn [sum_numbers] in Hsum. rewrite Z.add_0_l in Hsum.
  fold (stored_sum (_data fake) keys) in Hsum.
  unfold load_many_values_sum_and_create_new_entry. rewrite Hsum.
  split; [|split].
  - intros Hdigits. rewrite (py_str_returns _ Hdigits).
    cbn [create FakeRepo_protocol fst snd bind_result _data].
    split; [done|]. split.
    + intros other Hother. by rewrite lookup_insert_ne.
    + unfold get_and_parse_value. cbn [read FakeRepo_protocol fst snd _data].
      unfold getitem. rewrite lookup_insert_eq. cbn [bind_result py_int].
      apply int_of_str_py_str. by apply py_str_returns.
  - intros Hdigits. unfold py_str.
    destruct (Nat.ltb_spec int_max_str_digits
                (decimal_digits (stored_sum (_data fake) keys))); [|lia].
    by eexists.
  - intros Hnone. rewrite (sum_numbers_FakeRepo_good keys fake Hgood).
    cbn [sum_numbers read FakeRepo_protocol]. unfold getitem. by rewrite Hnone.
Qed.

Lemma load_many_values_then_get_and_parse_value_witness :
  (get_and_parse_value
     (load_many_values_sum_and_create_new_entry
        (after [Create "a" "40"; Create "b" "-2"] FakeRepo_init)
        ["a"; "b"; "a"]%string).1 "total").2
  = Ok 78.
Proof.
  refine (proj2 (proj2 (proj1
    (load_many_values_then_get_and_parse_value
       (after [Create "a" "40"; Create "b" "-2"] FakeRepo_init)
       ["a"; "b"; "a"]%string "c" [] _) _))).
  - repeat apply Forall_cons_2; [..|apply Forall_nil_2]; by eexists.
  - apply Nat.leb_le. vm_compute. reflexivity.
Defined.

Lemma sum_numbers_MockRepo (keys : list string) :
  ∀ (mock : MockRepo) (total : Z),
    sum_numbers mock keys total
    = ({| create_call_count := create_call_count mock;
          create_call_args := create_call_args mock;
          read_call_count := read_call_count mock + Z.of_nat (length keys);
          read_call_args := read_call_args mock ++ keys |},
       Ok (total + 2 * Z.of_nat (length keys))).
Proof.
  induction keys as [|key keys IH]; intros mock total.
  - simpl. rewrite app_nil_r, !Z.add_0_r. by destruct mock.
  - rewrite length_cons, Nat2Z.inj_succ.
    change (sum_numbers mock (key :: keys) total)
      with (sum_numbers (read key mock).1 keys (total + 2)).
    rewrite IH. simpl. rewrite <- app_assoc. simpl.
    f_equal; [f_equal; lia | f_equal; lia].
Qed.

(** X11. On a [MockRepo] in any state,
    [load_many_values_sum_and_create_new_entry] makes one [read] call a
    key, in the order of the keys, and then exactly one [create] call,
    with the key ["total"] and the text [str] returns for twice the
    number of keys; it returns [None]. Were the keys so many that [str]
    refuses that number, the [read] calls would be all it makes, and it
    would raise what [str] raises. *)
Theorem load_many_values_on_MockRepo (mock : MockRepo) (keys : list string) :
  load_many_values_sum_and_create_new_entry mock keys
  = match py_str (2 * Z.of_nat (length keys)) with
    | Ok text =>
        ({| create_call_count := create_call_count mock + 1;
            create_call_args := create_call_args mock ++ [("total"%string, text)];
            read_call_count := read_call_count mock + Z.of_nat (length keys);
            read_call_args := read_call_args mock ++ keys |},
         Ok PyNone)
    | Raise e =>
        ({| create_call_count := create_call_count mock;
            create_call_args := create_call_args mock;
            read_call_count := read_call_count mock + Z.of_nat (length keys);
            read_call_args := read_call_args mock ++ keys |},
         Raise e)
    end.
Proof.
  unfold load_many_values_sum_and_create_new_entry.
  rewrite sum_numbers_MockRepo, Z.add_0_l.
  by destruct (py_str (2 * Z.of_nat (length keys))).
Qed.

(** The scenario of [test_with_mock]. *)
Example load_many_values_on_MockRepo_3_keys :
  load_many_values_sum_and_create_new_entry MockRepo_init ["1"; "2"; "3"]%string
  = ({| create_call_count := 1;
        create_call_args := [("total", "6")]%string;
        read_call_count := 3;
        read_call_args := ["1"; "2"; "3"]%string |},
     Ok PyNone).
Proof. vm_compute. reflexivity. Qed.

(** ** [DirectorySorter] *)

Section lexicographic.
Context {A : Type} (cmp : A → A → comparison).
Hypothesis cmp_eq : ∀ a b, cmp a b = Eq → a = b.
Hypothesis cmp_antisym : ∀ a b, cmp a b = CompOpp (cmp b a).
Hypothesis cmp_lt_trans : ∀ a b c, cmp a b = Lt → cmp b c = Lt → cmp a c = Lt.

Lemma cmp_refl (a : A) : cmp a a = Eq.
Proof. pose proof (cmp_antisym a a). by destruct (cmp a a). Qed.

Lemma lex_compare_eq (p : list A) : ∀ q, lex_compare cmp p q = Eq → p = q.
Proof.
  induction p as [|a p IH]; intros [|b q]; simpl; try done.
  destruct (cmp a b) eqn:Hab; try done.
  intros ->%IH. by rewrite (cmp_eq _ _ Hab).
Qed.

Lemma lex_compare_antisym (p : list A) :
  ∀ q, lex_compare cmp p q = CompOpp (lex_compare cmp q p).
Proof.
  induction p as [|a p IH]; intros [|b q]; simpl; try done.
  rewrite (cmp_antisym b a). destruct (cmp a b); simpl; [apply IH | done..].
Qed.

Lemma lex_compare_lt_trans (p : list A) :
  ∀ q r, lex_compare cmp p q = Lt → lex_compare cmp q r = Lt →
         lex_compare cmp p r = Lt.
Proof.
  induction p as [|a p IH]; intros [|b q] [|c r]; simpl; try done.
  destruct (cmp a b) eqn:Hab; try done.
  - apply cmp_eq in Hab as ->. destruct (cmp b c); try done. apply IH.
  - intros _. destruct (cmp b c) eqn:Hbc; try done.
    + apply cmp_eq in Hbc as <-. by rewrite Hab.
    + by rewrite (cmp_lt_trans _ _ _ Hab Hbc).
Qed.

Lemma lex_compare_refl (p : list A) : lex_compare cmp p p = Eq.
Proof. induction p as [|a p IH]; simpl; [done|]. by rewrite cmp_refl. Qed.

(** Two lists with the same front compare as their tails do. *)
Lemma lex_compare_app (front p q : list A) :
  lex_compare cmp (front ++ p) (front ++ q) = lex_compare cmp p q.
Proof. induction front as [|a front IH]; simpl; [done|]. by rewrite cmp_refl. Qed.

End lexicographic.

Section paths.

Lemma String_compare_lex (s t : string) :
  String.compare s t
  = lex_compare Ascii.compare (String.list_ascii_of_string s)
                (String.list_ascii_of_string t).
Proof.
  revert t. induction s as [|a s IH]; intros [|b t]; simpl; try done.
  by rewrite IH.
Qed.

Lemma Ascii_compare_lt_trans (a b c : ascii) :
  Ascii.compare a b = Lt → Ascii.compare b c = Lt → Ascii.compare a c = Lt.
Proof. unfold Ascii.compare. rewrite !N.compare_lt_iff. lia. Qed.

Lemma String_compare_lt_trans (s t u : string) :
  String.compare s t = Lt → String.compare t u = Lt → String.compare s u = Lt.
Proof.
  rewrite !String_compare_lex.
  apply (lex_compare_lt_trans Ascii.compare Ascii.compare_eq_iff
           Ascii_compare_lt_trans).
Qed.

Lemma path_compare_eq (p q : path) : path_compare p q = Eq → p = q.
Proof. apply (lex_compare_eq String.compare String.compare_eq_iff). Qed.

Lemma path_compare_antisym (p q : path) :
  path_compare p q = CompOpp (path_compare q p).
Proof. apply (lex_compare_antisym String.compare String.compare_antisym). Qed.

Lemma path_compare_lt_trans (p q r : path) :
  path_compare p q = Lt → path_compare q r = Lt → path_compare p r = Lt.
Proof.
  apply (lex_compare_lt_trans String.compare String.compare_eq_iff
           String_compare_lt_trans).
Qed.

Lemma path_le_compare (p q : path) : path_le p q ↔ path_compare p q ≠ Gt.
Proof.
  unfold path_le, path_lt. rewrite (path_compare_antisym q p).
  destruct (path_compare p q); simpl; split; done.
Qed.

#[global] Instance path_le_total : Total path_le.
Proof.
  intros p q. rewrite !path_le_compare, (path_compare_antisym q p).
  destruct (path_compare p q); simpl; [left | left | right]; done.
Qed.

#[global] Instance path_le_antisym : AntiSymm (=) path_le.
Proof.
  intros p q. rewrite !path_le_compare, (path_compare_antisym q p).
  destruct (path_compare p q) eqn:Hpq; simpl; try done.
  intros _ _. by apply path_compare_eq.
Qed.

#[global] Instance path_le_trans : Transitive path_le.
Proof.
  intros p q r. rewrite !path_le_compare.
  destruct (path_compare p q) eqn:Hpq; try done.
  - by apply path_compare_eq in Hpq as ->.
  - intros _. destruct (path_compare q r) eqn:Hqr; try done.
    + apply path_compare_eq in Hqr as <-. by rewrite Hpq.
    + by rewrite (path_compare_lt_trans _ _ _ Hpq Hqr).
Qed.

(** Entries of one directory compare as their names do. *)
Lemma path_compare_joinpath (directory : path) (name name' : string) :
  path_compare (joinpath directory name) (joinpath directory name')
  = String.compare name name'.
Proof.
  unfold path_compare, joinpath.
  rewrite lex_compare_app by apply String.compare_antisym.
  simpl. by destruct (String.compare name name').
Qed.

Lemma sorted_Sorted (paths : list path) : Sorted path_le (sorted paths).
Proof. apply Sorted_merge_sort, _. Qed.

Lemma sorted_Permutation (paths : list path) : sorted paths ≡ₚ paths.
Proof. apply merge_sort_Permutation. Qed.

End paths.

Section names.

#[global] Instance name_le_dec : RelDecision name_le.
Proof. intros s t. unfold name_le. apply _. Defined.

#[global] Instance name_le_total : Total name_le.
Proof.
  intros s t. unfold name_le. rewrite (String.compare_antisym t s).
  destruct (String.compare s t); simpl; [left | left | right]; done.
Qed.

Lemma name_le_joinpath (directory : path) (name name' : string) :
  name_le name name' → path_le (joinpath directory name) (joinpath directory name').
Proof. unfold name_le. by rewrite path_le_compare, path_compare_joinpath. Qed.

(** Sorting the entries of a directory is sorting their names. *)
Lemma sorted_joinpath (directory : path) (names : list string) :
  sorted (joinpath directory <$> names)
  = joinpath directory <$> merge_sort name_le names.
Proof.
  apply (Sorted_unique path_le).
  - apply sorted_Sorted.
  - apply (Sorted_fmap _ name_le); [apply name_le_joinpath|].
    apply Sorted_merge_sort, _.
  - rewrite sorted_Permutation. by rewrite merge_sort_Permutation.
Qed.

End names.

(** X12. On a directory the system can list, [get_sorted_filepaths]
    returns the paths of exactly the entries listed, each as often as
    listed, in ascending order of paths, which is the ascending order of
    their names; the error of listing a directory is raised
    unchanged. *)
Theorem get_sorted_filepaths_sorted
    (listdir : path → os_result (list string)) (self : DirectorySorter) :
  (∀ names, listdir (_directory self) = Returned names →
     ∃ sorted_names,
       get_sorted_filepaths listdir self
         = Returned (joinpath (_directory self) <$> sorted_names)
       ∧ sorted_names ≡ₚ names
       ∧ Sorted name_le sorted_names
       ∧ Sorted path_le (joinpath (_directory self) <$> sorted_names))
  ∧ (∀ e, listdir (_directory self) = OSError e →
       get_sorted_filepaths listdir self = OSError e).
Proof.
  unfold get_sorted_filepaths, iterdir. split.
  - intros names ->. exists (merge_sort name_le names).
    rewrite sorted_joinpath. split; [done|]. split; [|split].
    + apply merge_sort_Permutation.
    + apply Sorted_merge_sort, _.
    + rewrite <- sorted_joinpath. apply sorted_Sorted.
  - by intros e ->.
Qed.

Lemma get_sorted_filepaths_sorted_witness :
  ∃ sorted_names,
    get_sorted_filepaths (λ _, Returned ["file_2.txt"; "a.txt"; "file_1.txt"]%string)
                         {| _directory := ["/"; "tmp"]%string |}
    = Returned (joinpath ["/"; "tmp"]%string <$> sorted_names)
    ∧ sorted_names ≡ₚ ["file_2.txt"; "a.txt"; "file_1.txt"]%string
    ∧ Sorted name_le sorted_names
    ∧ Sorted path_le (joinpath ["/"; "tmp"]%string <$> sorted_names).
Proof.
  apply (proj1 (get_sorted_filepaths_sorted
                  (λ _, Returned ["file_2.txt"; "a.txt"; "file_1.txt"]%string)
                  {| _directory := ["/"; "tmp"]%string |})).
  reflexivity.
Defined.

(** X13. What [get_sorted_filepaths] returns does not depend on the
    order in which the system lists the entries of the directory. *)
Theorem get_sorted_filepaths_any_listing_order
    (listdir listdir' : path → os_result (list string)) (self : DirectorySorter)
    (names names' : list string) :
  listdir (_directory self) = Returned names →
  listdir' (_directory self) = Returned names' →
  names ≡ₚ names' →
  get_sorted_filepaths listdir self = get_sorted_filepaths listdir' self.
Proof.
  intros Hnames Hnames' Hperm. unfold get_sorted_filepaths, iterdir.
  rewrite Hnames, Hnames'. f_equal.
  apply (Sorted_unique path_le); [apply sorted_Sorted.. |].
  by rewrite !sorted_Permutation, Hperm.
Qed.

Lemma get_sorted_filepaths_any_listing_order_witness :
  get_sorted_filepaths (λ _, Returned ["file_2.txt"; "file_1.txt"]%string)
                       {| _directory := ["tmp"]%string |}
  = get_sorted_filepaths (λ _, Returned ["file_1.txt"; "file_2.txt"]%string)
                         {| _directory := ["tmp"]%string |}.
Proof.
  apply (get_sorted_filepaths_any_listing_order
           (λ _, Returned ["file_2.txt"; "file_1.txt"]%string)
           (λ _, Returned ["file_1.txt"; "file_2.txt"]%string)
           {| _directory := ["tmp"]%string |}
           ["file_2.txt"; "file_1.txt"]%string ["file_1.txt"; "file_2.txt"]%string).
  - reflexivity.
  - reflexivity.
  - apply Permutation_swap.
Defined.

Example get_sorted_filepaths_two_files :
  get_sorted_filepaths (λ _, Returned ["file_2.txt"; "file_1.txt"]%string)
                       {| _directory := ["tmp"]%string |}
  = Returned [["tmp"; "file_1.txt"]; ["tmp"; "file_2.txt"]]%string.
Proof. vm_compute. reflexivity. Qed.

(** ** [update_vscode] on any context *)

(** X14. Whatever directories the context has entered and whatever it
    has run before, [update_vscode] leaves the context untouched when
    there is no password, and otherwise appends to the commands run
    between one and four of its steps, in order, run in the directories
    entered so far, the privileged ones with the password of the
    secrets; it appends all four when it succeeds. The directories
    entered are the same afterwards, also when a step inside the cloned
    directory fails. *)
Theorem update_vscode_from_any_context
    (read_text : option string)
    (yaml_load : string → option (gmap string string))
    (exit_code : list invocation → invocation → Z)
    (context : Context) :
  (∀ e,
     (_read_secrets read_text yaml_load = Failed e
      ∨ ∃ secrets, _read_secrets read_text yaml_load = Done secrets
                   ∧ secrets !! "password" = None ∧ e = MissingKey "password") →
     update_vscode read_text yaml_load exit_code context = (context, Failed e))
  ∧ (∀ secrets password,
       _read_secrets read_text yaml_load = Done secrets →
       secrets !! "password" = Some password →
       ∃ (n : nat) (result : outcome unit),
         (1 ≤ n ≤ 4)%nat
         ∧ update_vscode read_text yaml_load exit_code context
           = ({| command_cwds := command_cwds context;
                 history := history context
                            ++ take n (steps_in (command_cwds context) password) |},
              result)
         ∧ (result = Done () → n = 4%nat)).
Proof.
  destruct context as [cwds ran]. split.
  - unfold update_vscode.
    intros e [->|(secrets & -> & Hnone & ->)]; [reflexivity|].
    unfold subscript. by rewrite Hnone.
  - intros secrets password Hsecrets Hpassword.
    unfold update_vscode, subscript. rewrite Hsecrets, Hpassword.
    unfold bind_action, cd, run, sudo, execute. simpl.
    destruct (exit_code ran _ =? 0); simpl.
    2:{ exists 1%nat. eexists. split; [lia|]. split; [reflexivity | done]. }
    destruct (exit_code (ran ++ [_]) _ =? 0); simpl.
    2:{ exists 2%nat. eexists. split; [lia|]. simpl. rewrite <- !app_assoc.
        split; [reflexivity | done]. }
    destruct (exit_code ((ran ++ [_]) ++ [_]) _ =? 0); simpl.
    2:{ exists 3%nat. eexists. split; [lia|]. simpl. rewrite <- !app_assoc.
        split; [reflexivity | done]. }
    destruct (exit_code (((ran ++ [_]) ++ [_]) ++ [_]) _ =? 0); simpl.
    all: exists 4%nat; eexists; (split; [lia|]); simpl; rewrite <- !app_assoc.
    all: split; [reflexivity | done].
Qed.

Lemma update_vscode_from_any_context_witness :
  ∃ (n : nat) (result : outcome unit),
    (1 ≤ n ≤ 4)%nat
    ∧ update_vscode (Some "password: hunter2")
        (λ _, Some {[ "password" := "hunter2" ]}) install_fails
        {| command_cwds := ["work"]; history := [Run [] "ls"] |}
      = ({| command_cwds := ["work"];
            history := [Run [] "ls"] ++ take n (steps_in ["work"] "hunter2") |},
         result)
    ∧ (result = Done () → n = 4%nat).
Proof.
  apply (proj2 (update_vscode_from_any_context
                  (Some "password: hunter2")
                  (λ _, Some {[ "password" := "hunter2" ]}) install_fails
                  {| command_cwds := ["work"]; history := [Run [] "ls"] |})
           {[ "password" := "hunter2" ]} "hunter2").
  - reflexivity.
  - reflexivity.
Defined.

(** ** The hook on any session *)

(** X15. [pytest_sessionstart] never leaves the status 5 on the session
    it is given, changes no session whose status is not 5, never
    changes the counts of tests, and called a second time changes
    nothing more. *)
Theorem pytest_sessionstart_clears_status_5 (session : Session) :
  exitstatus (pytest_sessionstart session) ≠ 5
  ∧ (exitstatus session ≠ 5 → pytest_sessionstart session = session)
  ∧ testsfailed (pytest_sessionstart session) = testsfailed session
  ∧ testscollected (pytest_sessionstart session) = testscollected session
  ∧ pytest_sessionstart (pytest_sessionstart session) = pytest_sessionstart session.
Proof.
  unfold pytest_sessionstart.
  destruct (Z.eqb_spec (exitstatus session) 5) as [Heq|Hne]; simpl.
  - repeat split; done.
  - destruct (Z.eqb_spec (exitstatus session) 5); [done|]. repeat split; done.
Qed.

Lemma pytest_sessionstart_clears_status_5_witness :
  pytest_sessionstart {| exitstatus := 1; testsfailed := 2; testscollected := 3 |}
  = {| exitstatus := 1; testsfailed := 2; testscollected := 3 |}.
Proof.
  apply (proj1 (proj2 (pytest_sessionstart_clears_status_5
           {| exitstatus := 1; testsfailed := 2; testscollected := 3 |}))).
  discriminate.
Defined.

(** X16. Under pytest's session driver the hook of [conftest.py] changes
    the exit code of no run: whatever numbers of tests are collected and
    fail, the run exits as it does with no hook at all. *)
Theorem conftest_changes_no_exit_code (collected failed : nat) :
  wrap_session conftest collected failed = wrap_session no_hooks collected failed.
Proof. reflexivity. Qed.

(** ** [read_parse_sum_data] on any repository *)

Section any_repository.
Context {R : Type} `{AbstractRepository R}.

(** The sum so far is carried along unchanged. *)
Lemma sum_numbers_total (keys : list string) :
  ∀ (repo : R) (total : Z),
    sum_numbers repo keys total
    = ((sum_numbers repo keys 0).1,
       bind_result (sum_numbers repo keys 0).2 (λ sum, Ok (total + sum))).
Proof.
  induction keys as [|key keys IH]; intros repo total.
  - simpl. by rewrite Z.add_0_r.
  - simpl. destruct (read key repo) as [repo' value].
    destruct (bind_result value py_int) as [number|e]; [|reflexivity].
    rewrite (IH repo' (total + number)), (IH repo' (0 + number)). simpl.
    destruct (sum_numbers repo' keys 0) as [repo'' [sum|e]]; simpl; [|reflexivity].
    do 2 f_equal. lia.
Qed.

Lemma sum_numbers_app (keys keys' : list string) :
  ∀ (repo : R) (total : Z),
    sum_numbers repo (keys ++ keys') total
    = match sum_numbers repo keys total with
      | (repo', Ok sum) => sum_numbers repo' keys' sum
      | (repo', Raise e) => (repo', Raise e)
      end.
Proof.
  induction keys as [|key keys IH]; intros repo total; [reflexivity|].
  simpl. destruct (read key repo) as [repo' value].
  destruct (bind_result value py_int) as [number|e]; [apply IH | reflexivity].
Qed.

End any_repository.

(** X17. On every implementation of the repository protocol,
    [read_parse_sum_data] over the keys [keys ++ keys'] is
    [read_parse_sum_data] over [keys] and then, from the repository as
    that left it, over [keys']: the sums add up, and the first exception
    is the one raised, with no later key read. Over no keys it returns 0
    and leaves the repository as it was. *)
Theorem read_parse_sum_data_app
    {R : Type} `{AbstractRepository R} (repo : R) (keys keys' : list string) :
  read_parse_sum_data repo [] = (repo, Ok 0)
  ∧ read_parse_sum_data repo (keys ++ keys')
    = match read_parse_sum_data repo keys with
      | (repo', Ok sum) =>
          ((read_parse_sum_data repo' keys').1,
           bind_result (read_parse_sum_data repo' keys').2 (λ sum', Ok (sum + sum')))
      | (repo', Raise e) => (repo', Raise e)
      end.
Proof.
  split; [reflexivity|]. unfold read_parse_sum_data. rewrite sum_numbers_app.
  destruct (sum_numbers repo keys 0) as [repo' [sum|e]]; [|reflexivity].
  apply sum_numbers_total.
Qed.

(** ** [FakeTransformer] under [CompositeClassUnderTest] *)

(** X18. [CompositeClassUnderTest(FakeTransformer()).run] keeps the rows
    whose number is at most 2 and no others, in the order and as often
    as they occur in the input, dropping the rows whose number is null;
    run on its own result it changes nothing. *)
Theorem run_FakeTransformer_keeps_rows_up_to_2 (input_data : DataFrame) :
  let composite_object := {| _behavior_object := FakeTransformer_init |} in
  (∀ row, row ∈ Templates.run composite_object input_data
          ↔ row ∈ input_data ∧ ∃ number, number_column row = Some number ∧ number ≤ 2)
  ∧ Templates.run composite_object input_data `sublist_of` input_data
  ∧ Templates.run composite_object (Templates.run composite_object input_data)
    = Templates.run composite_object input_data
  ∧ ((∀ row, row ∈ input_data → ∃ number, number_column row = Some number ∧ number ≤ 2)
     → Templates.run composite_object input_data = input_data).
Proof.
  simpl. unfold Templates.run, _transform. simpl. unfold DataFrame_filter.
  assert (∀ row, number_column_le 2 row = Some true
                 ↔ ∃ number, number_column row = Some number ∧ number ≤ 2) as Hcond.
  { intros [letter [number|]]; unfold number_column_le; simpl.
    - split.
      + intros [= Hle%Z.leb_le]. by exists number.
      + intros (n & [= <-] & Hle). f_equal. by apply Z.leb_le.
    - split; [done | by intros (n & [=] & _)]. }
  split; [|split; [|split]].
  - intros row. rewrite list_elem_of_filter, Hcond. apply and_comm.
  - apply sublist_filter.
  - apply list_filter_filter_l. done.
  - intros Hall. induction input_data as [|row rows IH]; [reflexivity|].
    rewrite filter_cons_True.
    + f_equal. apply IH. intros r Hr. apply Hall. by right.
    + apply Hcond, Hall. left.
Qed.

(** ** A number written and read back *)

(** X19. On a [CloudRepository] and on a [FakeRepo] in any state, after
    [create(key, str(n))] the function [get_and_parse_value] returns [n]
    for [key], for every integer [n] on which [str] returns, that is, of
    no more digits than [str] converts. *)
Theorem get_and_parse_value_reads_created_number
    (cloud : CloudRepository) (fake : FakeRepo) (key : string) (n : Z) (text : string) :
  py_str n = Ok text →
  (get_and_parse_value (create key text cloud).1 key).2 = Ok n
  ∧ (get_and_parse_value (create key text fake).1 key).2 = Ok n.
Proof.
  intros Htext%int_of_str_py_str.
  unfold get_and_parse_value.
  cbn [create read CloudRepository_protocol FakeRepo_protocol fst snd
       _data _data_store _cloud_operation].
  unfold getitem. rewrite !lookup_insert_eq. cbn [bind_result py_int].
  by rewrite Htext.
Qed.

Lemma get_and_parse_value_reads_created_number_witness :
  (get_and_parse_value (create "k" "-2026" CloudRepository_init).1 "k").2 = Ok (-2026)
  ∧ (get_and_parse_value (create "k" "-2026" FakeRepo_init).1 "k").2 = Ok (-2026).
Proof.
  apply (get_and_parse_value_reads_created_number
           CloudRepository_init FakeRepo_init "k" (-2026) "-2026").
  vm_compute. reflexivity.
Defined.

(** Ten to the power 4300, the least integer of 4301 digits, is one
    [str] refuses. *)
Example py_str_4301_digits :
  ∃ msg, py_str (10 ^ Z.of_nat int_max_str_digits) = Raise (ValueError msg).
Proof.
  destruct (py_str (10 ^ Z.of_nat int_max_str_digits)) as [text|e] eqn:Hstr.
  - assert (Z.abs (10 ^ Z.of_nat int_max_str_digits)
            < 10 ^ Z.of_nat int_max_str_digits) as Hlt.
    { apply py_str_returns_iff. by eexists. }
    pose proof (Z.pow_pos_nonneg 10 (Z.of_nat int_max_str_digits)). lia.
  - apply py_str_raises in Hstr as [_ [msg ->]]. by eexists.
Qed.
